(** * molecule_pred/utils.py: character vocabulary and one-hot encoding

    A shallow embedding of the two functions of [molecule_pred/utils.py],
    [generate_charset] and [smiles_to_onehots], and the properties of
    their specification.

    Python values are modelled as follows.
    - A character is its Unicode code point, a number in [N]; a [str] is
      the list of its code points.  Comparison of one-character strings in
      Python is comparison of code points.
    - A [set] of characters is a [gset N]; [sorted] is a merge sort on the
      enumeration of the set.
    - Exceptions are an error type, threaded by a small error monad.
    - A numpy array is a dtype, a shape and a flat row-major buffer;
      creating an array fails with ValueError on a negative dimension
      and on a size in bytes beyond the index range of a 64-bit build
      of numpy.  Exhaustion of the memory of the machine is outside the
      model. *)

From stdpp Require Import base numbers list sorting gmap sets.
From Stdlib Require Import ZArith Lia.
From Stdlib Require Ascii String.
Import String.StringSyntax.
Delimit Scope string_scope with string.

Local Open Scope Z_scope.
Local Open Scope list_scope.
Local Open Scope nat_scope.

(** ** Python strings *)

Abbreviation char := N (only parsing).
Abbreviation pystr := (list N) (only parsing).

(** A string literal of the source, as the list of its code points. *)
Definition lit (s : String.string) : pystr :=
  map Ascii.N_of_ascii (String.list_ascii_of_string s).
Arguments lit s%_string.

(** [''.join(xs)]: the concatenation of the strings of [xs]. *)
Definition join_empty (xs : list pystr) : pystr := concat xs.

(** The one-character string made of [c]. *)
Definition str1 (c : char) : pystr := [c].

(** ** Exceptions *)

Inductive exn := IndexError | ValueError.

Inductive result (A : Type) :=
| Ok (a : A)
| Raise (e : exn).
Arguments Ok {A} a.
Arguments Raise {A} e.

Definition bind {A B} (r : result A) (k : A -> result B) : result B :=
  match r with
  | Ok a => k a
  | Raise e => Raise e
  end.

Notation "'let*' x := r 'in' k" := (bind r (fun x => k))
  (at level 10, x name, r at level 100, k at level 200).

Global Instance exn_eq_dec : EqDecision exn.
Proof. solve_decision. Defined.

(** [try: body except ValueError: handler]. *)
Definition except_ValueError {A} (body : result A) (handler : result A) : result A :=
  match body with
  | Raise ValueError => handler
  | r => r
  end.

(** A [for] loop over [xs] whose body may raise: the state is threaded
    through the iterations and the first exception ends the loop. *)
Fixpoint for_each {A S} (xs : list A) (body : A -> S -> result S) (st : S) : result S :=
  match xs with
  | [] => Ok st
  | x :: xs' => let* st' := body x st in for_each xs' body st'
  end.

(** ** generate_charset *)

Definition NULL : pystr := lit "NULL".
Definition PAD : pystr := lit "PAD".

(** [set(s)] for a string [s]: the set of its characters. *)
Definition set_of_str (s : pystr) : gset char := list_to_set s.

(** [sorted(u)] for a set of characters [u]. *)
Definition sorted (u : gset char) : list char := merge_sort N.le (elements u).

Definition generate_charset (full_char_list : list pystr) : list pystr :=
  let unique_chars := set_of_str (join_empty full_char_list) in
  let charset := [NULL; PAD] ++ map str1 (sorted unique_chars) in
  charset.


(** ** Python sequences *)

(** [s[i]] for a string [s] and [0 <= i]: the one-character string at
    position [i], [IndexError] out of range. *)
Definition str_getitem (s : pystr) (i : nat) : result pystr :=
  match s !! i with
  | Some c => Ok (str1 c)
  | None => Raise IndexError
  end.

(** [l.index(x)]: the first position of [l] that holds a value equal to
    [x], counted from [start]; [ValueError] when there is none. *)
Fixpoint index_from (l : list pystr) (x : pystr) (start : nat) : result nat :=
  match l with
  | [] => Raise ValueError
  | y :: l' => if decide (y = x) then Ok start else index_from l' x (S start)
  end.

Definition list_index (l : list pystr) (x : pystr) : result nat := index_from l x 0.

(** [l[i] = v] for [0 <= i]: [IndexError] out of range. *)
Definition list_setitem (l : list Z) (i : nat) (v : Z) : result (list Z) :=
  if decide (i < length l) then Ok (<[i := v]> l) else Raise IndexError.

(** [range(n)] for an integer [n]: empty when [n <= 0]. *)
Definition range (n : Z) : list nat := seq 0 (Z.to_nat n).

(** ** numpy arrays *)

Inductive dtype := Bool8 | Int8 | UInt8 | Int16 | Int32 | Int64 | Float32 | Float64.

Global Instance dtype_eq_dec : EqDecision dtype.
Proof. solve_decision. Defined.

(** An array: element type, shape, and the elements in row-major order.
    The only numbers this module stores are 0 and 1, which every dtype
    above represents exactly; an element is carried as the integer it
    denotes and the element type is recorded in [nd_dtype]. *)
Record ndarray := mk_ndarray {
  nd_dtype : dtype;
  nd_shape : list nat;
  nd_data : list Z
}.

(** The size of an element in bytes. *)
Definition itemsize (d : dtype) : Z :=
  match d with
  | Bool8 | Int8 | UInt8 => 1
  | Int16 => 2
  | Int32 | Float32 => 4
  | Int64 | Float64 => 8
  end%Z.

(** The largest index and the largest size in bytes of an array,
    [NPY_MAX_INTP], on a 64-bit build of numpy. *)
Definition npy_intp_max : Z := (2 ^ 63 - 1)%Z.

(** The product of the dimensions that are not zero. *)
Definition nonzero_product (dims : list Z) : Z :=
  foldr (fun d acc => if decide (d = 0)%Z then acc else (d * acc)%Z) 1%Z dims.

(** Creating an array of non-negative dimensions [dims]: numpy multiplies
    the element size by the non-zero dimensions and refuses the array
    with [ValueError] when the product leaves the range of [npy_intp]
    (a dimension beyond that range is refused in the same way). *)
Definition array_too_big (d : dtype) (dims : list Z) : bool :=
  bool_decide (npy_intp_max < itemsize d * nonzero_product dims)%Z.

(** [np.zeros(shape=(rows, cols))]: the default dtype is float64; a
    negative dimension raises [ValueError], and so does an array that
    is too big.  Exhaustion of the memory of the machine is not
    modelled. *)
Definition np_zeros (rows : Z) (cols : nat) : result ndarray :=
  if decide (rows < 0)%Z then Raise ValueError
  else if array_too_big Float64 [rows; Z.of_nat cols] then Raise ValueError
  else Ok (mk_ndarray Float64 [Z.to_nat rows; cols]
                      (replicate (Z.to_nat rows * cols) 0%Z)).

(** [a[i,:] = col] for a two-dimensional [a] and [0 <= i]: [IndexError]
    when [i] is not a row of [a]; a list as long as the row is copied
    into it, a list of length one is broadcast along it, and any other
    length raises [ValueError]. *)
Definition np_set_row (a : ndarray) (i : nat) (col : list Z) : result ndarray :=
  match nd_shape a with
  | [rows; cols] =>
      if decide (i < rows) then
        let put (row : list Z) :=
          mk_ndarray (nd_dtype a) (nd_shape a)
            (take (i * cols) (nd_data a) ++ row ++ drop (S i * cols) (nd_data a)) in
        if decide (length col = cols) then Ok (put col)
        else match col with
             | [v] => Ok (put (replicate cols v))
             | _ => Raise ValueError
             end
      else Raise IndexError
  | _ => Raise IndexError
  end.

(** [np.array(arrs)] for a list of arrays: the empty list gives the
    empty one-dimensional float64 array; arrays of one shape are stacked
    along a new first axis, unless the stacked array is too big, which
    raises [ValueError]; arrays of different shapes raise
    [ValueError]. *)
Definition np_array (arrs : list ndarray) : result ndarray :=
  match arrs with
  | [] => Ok (mk_ndarray Float64 [0] [])
  | a :: rest =>
      if forallb (fun b => bool_decide (nd_shape b = nd_shape a)) rest then
        let shape := length arrs :: nd_shape a in
        if array_too_big (nd_dtype a) (map Z.of_nat shape) then Raise ValueError
        else Ok (mk_ndarray (nd_dtype a) shape (concat (map nd_data arrs)))
      else Raise ValueError
  end.

(** ** smiles_to_onehots *)

(** Lines 23-33: the position that is set to one for position [i] of
    [smiles_string]. *)
Definition one_hot_index (smiles_string : pystr) (unique_charset : list pystr)
    (i : nat) : result nat :=
  if decide (i < length smiles_string) then
    except_ValueError
      (let* c := str_getitem smiles_string i in list_index unique_charset c)
      (Ok 0)
  else Ok 1.

(** Lines 22-36: the body of the loop over the positions. *)
Definition position_body (smiles_string : pystr) (unique_charset : list pystr)
    (charset_length : nat) (i : nat) (one_hot_smiles : ndarray) : result ndarray :=
  let one_hot_col := replicate charset_length 0%Z in
  let* ind := one_hot_index smiles_string unique_charset i in
  let* one_hot_col := list_setitem one_hot_col ind 1%Z in
  np_set_row one_hot_smiles i one_hot_col.

(** Lines 20-38: the body of the loop over the strings. *)
Definition string_body (unique_charset : list pystr) (charset_length : nat)
    (max_smiles_chars : Z) (smiles_string : pystr) (one_hots : list ndarray)
    : result (list ndarray) :=
  let* one_hot_smiles := np_zeros max_smiles_chars charset_length in
  let* one_hot_smiles :=
    for_each (range max_smiles_chars)
      (position_body smiles_string unique_charset charset_length) one_hot_smiles in
  Ok (one_hots ++ [one_hot_smiles]).

Definition smiles_to_onehots (smiles_strings : list pystr)
    (unique_charset : list pystr) (max_smiles_chars : Z) : result ndarray :=
  let one_hots := [] in
  let charset_length := length unique_charset in
  let* one_hots :=
    for_each smiles_strings
      (string_body unique_charset charset_length max_smiles_chars) one_hots in
  np_array one_hots.

(** ** Reading an array *)

(** [t[j, i, :]] for a three-dimensional [t]: the row at sample [j] and
    position [i]. *)
Definition nd_row (t : ndarray) (j i : nat) : option (list Z) :=
  match nd_shape t with
  | [n; m; l] =>
      if decide (j < n ∧ i < m)
      then Some (take l (drop ((j * m + i) * l) (nd_data t)))
      else None
  | _ => None
  end.

(** [t[j]]: the sub-array at index [j] of the first axis. *)
Definition nd_slice (t : ndarray) (j : nat) : option ndarray :=
  match nd_shape t with
  | n :: sh =>
      let size := foldr Nat.mul 1 sh in
      if decide (j < n)
      then Some (mk_ndarray (nd_dtype t) sh (take size (drop (j * size) (nd_data t))))
      else None
  | [] => None
  end.

(** The sum of the entries of a row. *)
Definition row_sum (row : list Z) : Z := foldr Z.add 0%Z row.

(** The integer element types. *)
Definition is_integer_dtype (d : dtype) : bool :=
  match d with
  | Float32 | Float64 => false
  | _ => true
  end.

(** The vector of length [l] that is one at [k] and zero elsewhere. *)
Definition one_hot (l k : nat) : list Z := <[k := 1%Z]> (replicate l 0%Z).

(** The position that is set to one, as a number: [one_hot_index]
    never raises, see [one_hot_index_chosen]. *)
Definition chosen (s : pystr) (v : list pystr) (i : nat) : nat :=
  match one_hot_index s v i with
  | Ok k => k
  | Raise _ => 0
  end.

(** The rows written for one string [s]: one row per position. *)
Definition sample_rows (s : pystr) (v : list pystr) (m : nat) : list (list Z) :=
  map (fun i => one_hot (length v) (chosen s v i)) (seq 0 m).

(** The array built for one string [s] when no write raises. *)
Definition sample_array (s : pystr) (v : list pystr) (m : Z) : ndarray :=
  mk_ndarray Float64 [Z.to_nat m; length v] (concat (sample_rows s v (Z.to_nat m))).

(** Every position chosen for [s] is a position of the vocabulary. *)
Definition sample_fits (s : pystr) (v : list pystr) (m : Z) : bool :=
  forallb (fun i => bool_decide (chosen s v i < length v)) (range m).

(** * Properties *)

(** ** Worked examples of the specification *)

Example generate_charset_CC1 :
  generate_charset [lit "CC1"] = [lit "NULL"; lit "PAD"; lit "1"; lit "C"].
Proof. vm_compute. reflexivity. Qed.

Example smiles_to_onehots_CC1 :
  smiles_to_onehots [lit "CC1"] [lit "NULL"; lit "PAD"; lit "1"; lit "C"] 4
  = Ok (mk_ndarray Float64 [1; 4; 4]
          [0;0;0;1; 0;0;0;1; 0;0;1;0; 0;1;0;0]%Z).
Proof. vm_compute. reflexivity. Qed.

Example smiles_to_onehots_oov :
  smiles_to_onehots [lit "X"] [lit "NULL"; lit "PAD"; lit "C"] 1
  = Ok (mk_ndarray Float64 [1; 1; 3] [1;0;0]%Z).
Proof. vm_compute. reflexivity. Qed.

Example smiles_to_onehots_empty_charset :
  smiles_to_onehots [lit "C"] [] 1 = Raise IndexError.
Proof. vm_compute. reflexivity. Qed.

Example smiles_to_onehots_too_many_rows :
  smiles_to_onehots [lit "C"] [] (2 ^ 62) = Raise ValueError.
Proof. vm_compute. reflexivity. Qed.

Example smiles_to_onehots_dimension_out_of_range :
  smiles_to_onehots [lit "C"] [lit "NULL"; lit "PAD"] (2 ^ 63) = Raise ValueError.
Proof. vm_compute. reflexivity. Qed.

Example smiles_to_onehots_negative_length :
  smiles_to_onehots [lit "C"] [lit "NULL"; lit "PAD"] (-1) = Raise ValueError.
Proof. vm_compute. reflexivity. Qed.

Example smiles_to_onehots_no_strings :
  smiles_to_onehots [] [lit "NULL"; lit "PAD"] 3 = Ok (mk_ndarray Float64 [0] []).
Proof. vm_compute. reflexivity. Qed.

(** ** Sorting a set of characters *)

Section sorted_facts.
Implicit Types (u : gset char) (l : list char) (c : char).

Lemma sorted_Permutation u : sorted u ≡ₚ elements u.
Proof. apply merge_sort_Permutation. Qed.

Lemma elem_of_sorted u c : c ∈ sorted u ↔ c ∈ u.
Proof. by rewrite sorted_Permutation, elem_of_elements. Qed.

Lemma NoDup_sorted u : NoDup (sorted u).
Proof. rewrite sorted_Permutation. apply NoDup_elements. Qed.

Lemma length_sorted u : length (sorted u) = size u.
Proof. unfold size, set_size. simpl. by rewrite sorted_Permutation. Qed.

(** A duplicate-free list in ascending order is in strictly ascending
    order. *)
Lemma StronglySorted_le_lt l :
  NoDup l → StronglySorted N.le l → StronglySorted N.lt l.
Proof.
  induction 2 as [|x l Hl IH Hx]; [constructor|].
  apply NoDup_cons in H as [Hnin Hnd].
  constructor; [by apply IH|].
  rewrite Forall_forall in Hx |- *. intros y Hy.
  specialize (Hx y Hy).
  assert (x ≠ y) by (intros ->; contradiction).
  lia.
Qed.

Lemma sorted_ascending u : StronglySorted N.lt (sorted u).
Proof.
  apply StronglySorted_le_lt; [apply NoDup_sorted|].
  apply StronglySorted_merge_sort; apply _.
Qed.

(** The result of [sorted] depends on the members of the set only, not
    on the order in which the set is enumerated: sorting any
    duplicate-free enumeration of [u] gives [sorted u]. *)
Lemma sorted_any_enumeration u l :
  NoDup l → (∀ c, c ∈ l ↔ c ∈ u) → merge_sort N.le l = sorted u.
Proof.
  intros Hnd Hel.
  apply (Sorted_unique N.le).
  - apply Sorted_merge_sort; apply _.
  - apply Sorted_merge_sort; apply _.
  - rewrite sorted_Permutation, merge_sort_Permutation.
    apply NoDup_Permutation; [done|apply NoDup_elements|].
    intros c. by rewrite Hel, elem_of_elements.
Qed.

Lemma size_set_of_str (s : pystr) : size (set_of_str s) = length (remove_dups s).
Proof.
  unfold set_of_str.
  rewrite <-(size_list_to_set (C := gset char) (remove_dups s))
    by apply NoDup_remove_dups.
  f_equal. apply set_eq. intros c.
  by rewrite !elem_of_list_to_set, elem_of_remove_dups.
Qed.
End sorted_facts.

(** ** The vocabulary *)

Global Instance str1_inj : Inj (=) (=) str1.
Proof. intros c1 c2. unfold str1. congruence. Qed.

Lemma NULL_not_str1 c : NULL ≠ str1 c.
Proof. discriminate. Qed.

Lemma PAD_not_str1 c : PAD ≠ str1 c.
Proof. discriminate. Qed.

Lemma elem_of_join_empty (corpus : list pystr) (c : char) :
  c ∈ join_empty corpus ↔ ∃ s, s ∈ corpus ∧ c ∈ s.
Proof.
  unfold join_empty. induction corpus as [|s corpus IH]; simpl.
  - split; [intros H; inv H|intros (s & H & _); inv H].
  - rewrite elem_of_app, IH. split.
    + intros [H|(s' & H1 & H2)]; [exists s|exists s']; split; auto; by constructor.
    + intros (s' & H1 & H2). inv H1; [by left|right; eauto].
Qed.

Lemma generate_charset_unfold (corpus : list pystr) :
  generate_charset corpus
  = NULL :: PAD :: map str1 (sorted (set_of_str (join_empty corpus))).
Proof. reflexivity. Qed.

(** C1. For every corpus, the vocabulary is ['NULL', 'PAD'] followed by
    the distinct characters of the corpus in strictly ascending
    code-point order; it has no duplicate entry and its length is two
    plus the number of distinct characters; the vocabulary of the empty
    corpus is ['NULL', 'PAD']. *)
Theorem generate_charset_spec (corpus : list pystr) :
  (∃ cs : list char,
      generate_charset corpus = lit "NULL" :: lit "PAD" :: map str1 cs
      ∧ StronglySorted N.lt cs
      ∧ (∀ c, c ∈ cs ↔ ∃ s, s ∈ corpus ∧ c ∈ s))
  ∧ generate_charset corpus !! 0 = Some (lit "NULL")
  ∧ generate_charset corpus !! 1 = Some (lit "PAD")
  ∧ NoDup (generate_charset corpus)
  ∧ length (generate_charset corpus) = 2 + length (remove_dups (concat corpus))
  ∧ generate_charset [] = [lit "NULL"; lit "PAD"].
Proof.
  rewrite generate_charset_unfold.
  set (cs := sorted (set_of_str (join_empty corpus))).
  split; [|split; [done|split; [done|split; [|split; [|done]]]]].
  - exists cs. split; [done|]. split; [apply sorted_ascending|].
    intros c. unfold cs. rewrite elem_of_sorted.
    unfold set_of_str. rewrite elem_of_list_to_set.
    apply elem_of_join_empty.
  - assert (Hfresh : ∀ t, (∀ c, t ≠ str1 c) → t ∉ map str1 cs).
    { intros t Ht Hin. apply list_elem_of_fmap in Hin as (c & -> & _).
      by apply (Ht c). }
    apply NoDup_cons. split.
    + intros Hin. apply elem_of_cons in Hin as [Heq|Hin]; [discriminate|].
      by apply (Hfresh NULL NULL_not_str1).
    + apply NoDup_cons. split; [apply (Hfresh PAD PAD_not_str1)|].
      apply (NoDup_fmap_2 str1), NoDup_sorted.
  - simpl. rewrite length_map. unfold cs.
    by rewrite length_sorted, size_set_of_str.
Qed.

(** C6. Two corpora with the same set of characters have the same
    vocabulary, position for position. *)
Theorem generate_charset_same_chars (corpus1 corpus2 : list pystr) :
  (∀ c : char, c ∈ concat corpus1 ↔ c ∈ concat corpus2) →
  generate_charset corpus1 = generate_charset corpus2.
Proof.
  intros Hsame. rewrite !generate_charset_unfold. do 3 f_equal.
  symmetry. apply sorted_any_enumeration.
  - apply NoDup_elements.
  - intros c. unfold set_of_str, join_empty.
    rewrite elem_of_elements, !elem_of_list_to_set. symmetry. apply Hsame.
Qed.

Lemma generate_charset_same_chars_witness :
  (∀ c : char, c ∈ concat [lit "CC1"] ↔ c ∈ concat [lit "1C"; lit "C"; lit "1"])
  ∧ generate_charset [lit "CC1"] = generate_charset [lit "1C"; lit "C"; lit "1"].
Proof.
  assert (H : ∀ c : char,
             c ∈ concat [lit "CC1"] ↔ c ∈ concat [lit "1C"; lit "C"; lit "1"]).
  { intros c. vm_compute concat. rewrite !elem_of_cons, !elem_of_nil. tauto. }
  split; [exact H|].
  apply (generate_charset_same_chars [lit "CC1"] [lit "1C"; lit "C"; lit "1"] H).
Defined.

(** ** Looking a character up in the vocabulary *)

Lemma index_from_Ok (l : list pystr) (x : pystr) (start k : nat) :
  index_from l x start = Ok k ↔
  ∃ k0, k = start + k0 ∧ l !! k0 = Some x ∧ ∀ k', k' < k0 → l !! k' ≠ Some x.
Proof.
  revert start. induction l as [|y l IH]; intros start; simpl.
  - split; [discriminate|]. by intros (k0 & _ & H & _).
  - destruct (decide (y = x)) as [->|Hne].
    + split.
      * intros [= <-]. exists 0. split; [lia|]. split; [done|]. intros; lia.
      * intros (k0 & -> & Hk0 & Hfirst). destruct k0 as [|k0]; [f_equal; lia|].
        exfalso. apply (Hfirst 0); [lia|done].
    + rewrite IH. split.
      * intros (k0 & -> & Hk0 & Hfirst). exists (S k0).
        split; [lia|]. split; [done|].
        intros [|k'] Hk'; simpl; [congruence|]. apply Hfirst. lia.
      * intros ([|k0] & -> & Hk0 & Hfirst); simpl in Hk0; [congruence|].
        exists k0. split; [lia|]. split; [done|].
        intros k' Hk'. apply (Hfirst (S k')). lia.
Qed.

Lemma index_from_Raise (l : list pystr) (x : pystr) (start : nat) (e : exn) :
  index_from l x start = Raise e ↔ e = ValueError ∧ x ∉ l.
Proof.
  revert start. induction l as [|y l IH]; intros start; simpl.
  - split; [intros [= <-]; split; [done|apply not_elem_of_nil]|by intros [-> _]].
  - destruct (decide (y = x)) as [->|Hne].
    + split; [discriminate|]. intros [_ Hnin]. exfalso. apply Hnin. by left.
    + rewrite IH, not_elem_of_cons. split; [intros [-> ?]|intros [-> [_ ?]]]; auto.
Qed.

Lemma list_index_Ok (l : list pystr) (x : pystr) (k : nat) :
  list_index l x = Ok k ↔ l !! k = Some x ∧ ∀ k', k' < k → l !! k' ≠ Some x.
Proof.
  unfold list_index. rewrite index_from_Ok. split.
  - by intros (k0 & -> & H).
  - intros H. by exists k.
Qed.

Lemma list_index_elem_of (l : list pystr) (x : pystr) :
  x ∈ l → ∃ k, list_index l x = Ok k.
Proof.
  intros Hin. destruct (list_index l x) as [k|e] eqn:E; [by exists k|].
  apply index_from_Raise in E as [_ Hnin]. contradiction.
Qed.

Lemma one_hot_index_chosen (s : pystr) (v : list pystr) (i : nat) :
  one_hot_index s v i = Ok (chosen s v i).
Proof.
  unfold chosen, one_hot_index, str_getitem.
  destruct (decide (i < length s)) as [Hi|Hi]; [|done].
  apply lookup_lt_is_Some_2 in Hi as [c ->]. simpl.
  destruct (list_index v (str1 c)) as [k|e] eqn:E; [done|].
  apply index_from_Raise in E as [-> _]. done.
Qed.

Lemma chosen_found (s : pystr) (v : list pystr) (i : nat) (c : char) :
  s !! i = Some c → str1 c ∈ v →
  v !! chosen s v i = Some (str1 c)
  ∧ ∀ k', k' < chosen s v i → v !! k' ≠ Some (str1 c).
Proof.
  intros Hc Hin. apply list_index_elem_of in Hin as [k Hk].
  assert (chosen s v i = k) as ->; [|by apply list_index_Ok].
  unfold chosen, one_hot_index, str_getitem.
  rewrite decide_True by (by eapply lookup_lt_Some).
  rewrite Hc. simpl. by rewrite Hk.
Qed.

Lemma chosen_absent (s : pystr) (v : list pystr) (i : nat) (c : char) :
  s !! i = Some c → str1 c ∉ v → chosen s v i = 0.
Proof.
  intros Hc Hnin. unfold chosen, one_hot_index, str_getitem.
  rewrite decide_True by (by eapply lookup_lt_Some).
  rewrite Hc. simpl.
  destruct (list_index v (str1 c)) as [k|e] eqn:E.
  - apply list_index_Ok in E as [E _]. apply list_elem_of_lookup_2 in E.
    contradiction.
  - apply index_from_Raise in E as [-> _]. done.
Qed.

Lemma chosen_padding (s : pystr) (v : list pystr) (i : nat) :
  length s ≤ i → chosen s v i = 1.
Proof.
  intros Hi. unfold chosen, one_hot_index.
  by rewrite decide_False by lia.
Qed.

(** With two entries or more in the vocabulary, the chosen position is
    always a position of the vocabulary. *)
Lemma chosen_lt (s : pystr) (v : list pystr) (i : nat) :
  2 ≤ length v → chosen s v i < length v.
Proof.
  intros Hv. destruct (decide (i < length s)) as [Hi|Hi].
  - apply lookup_lt_is_Some_2 in Hi as [c Hc].
    destruct (decide (str1 c ∈ v)) as [Hin|Hnin].
    + eapply lookup_lt_Some, chosen_found; eauto.
    + rewrite (chosen_absent _ _ _ _ Hc Hnin). lia.
  - rewrite chosen_padding by lia. lia.
Qed.

(** Within the string, one entry in the vocabulary is enough. *)
Lemma chosen_lt_in_string (s : pystr) (v : list pystr) (i : nat) :
  i < length s → v ≠ [] → chosen s v i < length v.
Proof.
  intros Hi Hv. apply lookup_lt_is_Some_2 in Hi as [c Hc].
  destruct (decide (str1 c ∈ v)) as [Hin|Hnin].
  - eapply lookup_lt_Some, chosen_found; eauto.
  - rewrite (chosen_absent _ _ _ _ Hc Hnin). destruct v; [done|simpl; lia].
Qed.

(** ** The loop over the positions *)

Section position_loop.
Variables (s : pystr) (v : list pystr).
Local Abbreviation L := (length v).
Local Abbreviation row := (fun i : nat => one_hot (length v) (chosen s v i)).

Lemma length_row i : length (row i) = L.
Proof. unfold one_hot. by rewrite length_insert, length_replicate. Qed.

Lemma length_rows p q : length (concat (map row (seq p q))) = q * L.
Proof.
  revert p. induction q as [|q IH]; intros p; simpl; [done|].
  by rewrite length_app, (length_row p), IH.
Qed.

(** One iteration: the row of position [p] replaces the zeros that
    follow the rows written so far, or the write into the column
    raises. *)
Lemma position_body_step (M p q : nat) (done_rows : list Z) :
  p + S q = M → length done_rows = p * L →
  position_body s v L p
    (mk_ndarray Float64 [M; L] (done_rows ++ replicate (S q * L) 0%Z))
  = if bool_decide (chosen s v p < L)
    then Ok (mk_ndarray Float64 [M; L]
               ((done_rows ++ row p) ++ replicate (q * L) 0%Z))
    else Raise IndexError.
Proof.
  intros HM Hlen. unfold position_body.
  rewrite one_hot_index_chosen. simpl. unfold list_setitem.
  rewrite length_replicate.
  destruct (decide (chosen s v p < L)) as [Hk|Hk].
  - rewrite bool_decide_eq_true_2 by done. simpl.
    unfold np_set_row. simpl.
    rewrite decide_True by lia.
    rewrite decide_True by (by rewrite length_insert, length_replicate).
    do 2 f_equal.
    rewrite take_app_length' by done.
    rewrite drop_app_ge by (rewrite Hlen; lia).
    rewrite drop_replicate, Hlen.
    replace (L + q * L - (L + p * L - p * L)) with (q * L) by lia.
    by rewrite <-app_assoc.
  - by rewrite bool_decide_eq_false_2 by done.
Qed.

Lemma position_loop (M p q : nat) (done_rows : list Z) :
  p + q = M → length done_rows = p * L →
  for_each (seq p q) (position_body s v L)
    (mk_ndarray Float64 [M; L] (done_rows ++ replicate (q * L) 0%Z))
  = if forallb (fun i => bool_decide (chosen s v i < L)) (seq p q)
    then Ok (mk_ndarray Float64 [M; L]
               (done_rows ++ concat (map row (seq p q))))
    else Raise IndexError.
Proof.
  revert p done_rows. induction q as [|q IH]; intros p done_rows HM Hlen.
  - simpl. done.
  - cbn [seq for_each forallb map concat].
    rewrite (position_body_step M p q) by done.
    destruct (bool_decide (chosen s v p < L)); [|done].
    cbn [bind andb]. rewrite IH.
    + by rewrite <-app_assoc.
    + lia.
    + rewrite length_app, (length_row p). lia.
Qed.
End position_loop.

(** ** The loop over the strings *)

Section string_loop.
Variables (v : list pystr) (m : Z).

Lemma string_body_eq (s : pystr) (one_hots : list ndarray) :
  string_body v (length v) m s one_hots
  = if decide (m < 0)%Z then Raise ValueError
    else if array_too_big Float64 [m; Z.of_nat (length v)] then Raise ValueError
    else if sample_fits s v m then Ok (one_hots ++ [sample_array s v m])
    else Raise IndexError.
Proof.
  unfold string_body, np_zeros.
  destruct (decide (m < 0)%Z) as [Hm|Hm]; [done|].
  destruct (array_too_big Float64 _); [done|].
  cbn [bind]. unfold range.
  pose proof (position_loop s v (Z.to_nat m) 0 (Z.to_nat m) []) as Hloop.
  simpl app in Hloop. rewrite Hloop by (simpl; lia).
  unfold sample_fits, range.
  by destruct (forallb _ _).
Qed.

Lemma string_loop (smiles_strings : list pystr) (one_hots : list ndarray) :
  smiles_strings ≠ [] →
  for_each smiles_strings (string_body v (length v) m) one_hots
  = if decide (m < 0)%Z then Raise ValueError
    else if array_too_big Float64 [m; Z.of_nat (length v)] then Raise ValueError
    else if forallb (fun s => sample_fits s v m) smiles_strings
         then Ok (one_hots ++ map (fun s => sample_array s v m) smiles_strings)
         else Raise IndexError.
Proof.
  revert one_hots.
  induction smiles_strings as [|s rest IH]; intros one_hots Hne; [done|].
  cbn [for_each forallb map]. rewrite string_body_eq.
  destruct (decide (m < 0)%Z) as [Hm|Hm]; [done|].
  destruct (array_too_big Float64 _) eqn:Hbig; [done|].
  destruct (sample_fits s v m); [|done].
  cbn [bind andb].
  destruct rest as [|s' rest'].
  - done.
  - rewrite IH by done. rewrite ?decide_False by done. rewrite ?Hbig.
    destruct (forallb _ _); [|done].
    by rewrite <-app_assoc.
Qed.

(** Stacking the arrays of the strings. *)
Lemma np_array_samples (s : pystr) (rest : list pystr) :
  (0 ≤ m)%Z →
  np_array (map (fun s => sample_array s v m) (s :: rest))
  = if array_too_big Float64
         [Z.of_nat (S (length rest)); m; Z.of_nat (length v)]
    then Raise ValueError
    else Ok (mk_ndarray Float64 [S (length rest); Z.to_nat m; length v]
               (concat (map (fun s => concat (sample_rows s v (Z.to_nat m)))
                            (s :: rest)))).
Proof.
  intros Hm. unfold np_array. cbn [map].
  replace (forallb _ _) with true.
  - cbn [nd_shape nd_dtype sample_array length map].
    rewrite length_map, Z2Nat.id by done.
    destruct (array_too_big Float64 _); [done|].
    do 2 f_equal.
    cbn [nd_data concat]. f_equal.
    clear. induction rest as [|s' rest IH]; [done|].
    cbn [map concat nd_data]. by rewrite IH.
  - symmetry. apply forallb_forall. intros a Ha.
    apply in_map_iff in Ha as (s' & <- & _). by apply bool_decide_eq_true_2.
Qed.

(** The call, as one equation: what is returned and when which
    exception is raised. *)
Theorem smiles_to_onehots_eq (smiles_strings : list pystr) :
  smiles_to_onehots smiles_strings v m
  = match smiles_strings with
    | [] => Ok (mk_ndarray Float64 [0] [])
    | _ :: _ =>
        if decide (m < 0)%Z then Raise ValueError
        else if array_too_big Float64 [m; Z.of_nat (length v)]
        then Raise ValueError
        else if forallb (fun s => sample_fits s v m) smiles_strings
        then if array_too_big Float64
                  [Z.of_nat (length smiles_strings); m; Z.of_nat (length v)]
             then Raise ValueError
             else Ok (mk_ndarray Float64
                        [length smiles_strings; Z.to_nat m; length v]
                        (concat (map (fun s => concat (sample_rows s v (Z.to_nat m)))
                                     smiles_strings)))
        else Raise IndexError
    end.
Proof.
  unfold smiles_to_onehots.
  destruct smiles_strings as [|s rest]; [done|].
  rewrite string_loop by done.
  destruct (decide (m < 0)%Z) as [Hm|Hm]; [done|].
  destruct (array_too_big Float64 [m; _]); [done|].
  destruct (forallb _ _); [|done].
  cbn [bind app]. apply np_array_samples. lia.
Qed.
End string_loop.

(** ** Row-major buffers *)

Section chunks.
Context {A : Type}.
Implicit Types (ls : list (list A)).

(** In a concatenation of lists of length [n], the list at index [k]
    starts at offset [k * n]. *)
Lemma chunk_concat ls (n k : nat) (x rest : list A) :
  Forall (fun y => length y = n) ls → ls !! k = Some x →
  take n (drop (k * n) (concat ls ++ rest)) = x.
Proof.
  intros Hall. revert k.
  induction Hall as [|y ls Hy Hall IH]; intros k Hk; [done|].
  simpl. rewrite <-app_assoc. destruct k as [|k]; simpl in *.
  - injection Hk as ->. rewrite drop_0. by rewrite take_app_length'.
  - rewrite drop_app_ge by lia.
    replace (n + k * n - length y) with (k * n) by lia. by apply IH.
Qed.

Lemma length_concat_uniform ls (n : nat) :
  Forall (fun y => length y = n) ls → length (concat ls) = length ls * n.
Proof.
  induction 1 as [|y ls Hy Hall IH]; simpl; [done|].
  rewrite length_app. lia.
Qed.

Lemma drop_concat_uniform ls (n k : nat) :
  Forall (fun y => length y = n) ls →
  drop (k * n) (concat ls) = concat (drop k ls).
Proof.
  intros Hall. revert k.
  induction Hall as [|y ls Hy Hall IH]; intros k.
  - simpl. by rewrite !drop_nil.
  - destruct k as [|k]; simpl; [done|].
    rewrite drop_app_ge by lia.
    replace (n + k * n - length y) with (k * n) by lia. apply IH.
Qed.
End chunks.

Lemma lookup_concat_uniform {A} (lss : list (list A)) (m j i : nat) (ls : list A) :
  Forall (fun y => length y = m) lss → lss !! j = Some ls → i < m →
  concat lss !! (j * m + i) = ls !! i.
Proof.
  intros Hall Hj Hi.
  rewrite <-lookup_drop, (drop_concat_uniform _ _ _ Hall).
  rewrite (drop_S _ _ _ Hj). simpl.
  apply lookup_app_l.
  rewrite Forall_forall in Hall.
  rewrite (Hall ls); [done|]. by eapply list_elem_of_lookup_2.
Qed.

Lemma concat_map_concat {A} (lss : list (list (list A))) :
  concat (map (@concat A) lss) = concat (concat lss).
Proof.
  induction lss as [|ls lss IH]; simpl; [done|].
  by rewrite concat_app, IH.
Qed.

(** ** Reading the encoded tensor *)

Lemma sample_fits_spec (s : pystr) (v : list pystr) (m : Z) :
  sample_fits s v m = true ↔ ∀ i, i < Z.to_nat m → chosen s v i < length v.
Proof.
  unfold sample_fits, range. rewrite forallb_forall. split.
  - intros H i Hi. eapply bool_decide_eq_true_1, H, in_seq. lia.
  - intros H i Hi. apply in_seq in Hi. apply bool_decide_eq_true_2, H. lia.
Qed.

Lemma length_sample_rows (s : pystr) (v : list pystr) (m : nat) :
  length (sample_rows s v m) = m.
Proof. unfold sample_rows. by rewrite length_map, length_seq. Qed.

Lemma lookup_sample_rows (s : pystr) (v : list pystr) (m i : nat) :
  i < m → sample_rows s v m !! i = Some (one_hot (length v) (chosen s v i)).
Proof.
  intros Hi. unfold sample_rows.
  change (map ?f ?l) with (f <$> l).
  by rewrite list_lookup_fmap, lookup_seq_lt.
Qed.

Lemma Forall_length_sample_rows (s : pystr) (v : list pystr) (m : nat) :
  Forall (fun row => length row = length v) (sample_rows s v m).
Proof.
  unfold sample_rows. apply Forall_forall. intros row Hrow.
  apply list_elem_of_fmap in Hrow as (i & -> & _).
  unfold one_hot. by rewrite length_insert, length_replicate.
Qed.

Lemma length_sample_block (s : pystr) (v : list pystr) (m : nat) :
  length (concat (sample_rows s v m)) = m * length v.
Proof.
  rewrite (length_concat_uniform _ (length v))
    by apply Forall_length_sample_rows.
  by rewrite length_sample_rows.
Qed.

(** ** The size of the arrays *)

Lemma itemsize_pos (d : dtype) : (0 < itemsize d)%Z.
Proof. by destruct d. Qed.

Lemma nonzero_product_pos (dims : list Z) :
  Forall (fun d => 0 ≤ d)%Z dims → (1 ≤ nonzero_product dims)%Z.
Proof.
  induction 1 as [|d dims Hd Hall IH]; cbn [nonzero_product foldr]; [lia|].
  fold (nonzero_product dims). destruct (decide (d = 0)%Z); nia.
Qed.

Lemma array_too_big_false (d : dtype) (dims : list Z) :
  array_too_big d dims = false
  ↔ (itemsize d * nonzero_product dims ≤ npy_intp_max)%Z.
Proof.
  unfold array_too_big. rewrite bool_decide_eq_false. lia.
Qed.

Lemma nonzero_product_cons (n : Z) (dims : list Z) :
  n ≠ 0%Z → nonzero_product (n :: dims) = (n * nonzero_product dims)%Z.
Proof.
  intros Hn. cbn [nonzero_product foldr]. by rewrite decide_False.
Qed.

(** An array that is not too big stays so when its first axis shrinks
    to a smaller positive length, and when the first axis is removed. *)
Lemma array_too_big_le (d : dtype) (n n' : Z) (dims : list Z) :
  (1 ≤ n' ≤ n)%Z → Forall (fun d => 0 ≤ d)%Z dims →
  array_too_big d (n :: dims) = false → array_too_big d (n' :: dims) = false.
Proof.
  intros Hn Hdims. rewrite !array_too_big_false.
  rewrite !nonzero_product_cons by lia.
  pose proof (nonzero_product_pos dims Hdims).
  pose proof (itemsize_pos d). nia.
Qed.

Lemma array_too_big_tail (d : dtype) (n : Z) (dims : list Z) :
  (1 ≤ n)%Z → Forall (fun d => 0 ≤ d)%Z dims →
  array_too_big d (n :: dims) = false → array_too_big d dims = false.
Proof.
  intros Hn Hdims. rewrite !array_too_big_false.
  rewrite nonzero_product_cons by lia.
  pose proof (nonzero_product_pos dims Hdims).
  pose proof (itemsize_pos d). nia.
Qed.

Lemma array_too_big_one (d : dtype) (dims : list Z) :
  array_too_big d (1%Z :: dims) = array_too_big d dims.
Proof.
  unfold array_too_big. rewrite nonzero_product_cons by done.
  by rewrite Z.mul_1_l.
Qed.

Lemma Forall_dims_nonneg (m : Z) (l : nat) :
  (0 ≤ m)%Z → Forall (fun d => 0 ≤ d)%Z [m; Z.of_nat l].
Proof. intros Hm. repeat constructor; lia. Qed.

(** What a successful call returns, and what its success implies. *)
Lemma smiles_to_onehots_Ok_inv (strings : list pystr) (v : list pystr) (m : Z)
    (t : ndarray) :
  smiles_to_onehots strings v m = Ok t → strings ≠ [] →
  (0 ≤ m)%Z
  ∧ (∀ s i, s ∈ strings → i < Z.to_nat m → chosen s v i < length v)
  ∧ t = mk_ndarray Float64 [length strings; Z.to_nat m; length v]
          (concat (map (fun s => concat (sample_rows s v (Z.to_nat m))) strings)).
Proof.
  rewrite smiles_to_onehots_eq. intros Hok Hne.
  destruct strings as [|s0 rest]; [done|].
  destruct (decide (m < 0)%Z) as [Hm|Hm]; [done|].
  destruct (array_too_big Float64 [m; _]); [done|].
  destruct (forallb _ _) eqn:Hfits; [|done].
  destruct (array_too_big Float64 _); [done|].
  split; [lia|]. split; [|congruence].
  intros s i Hs Hi. rewrite forallb_forall in Hfits.
  apply (sample_fits_spec s v m); [|done].
  apply Hfits. by apply list_elem_of_In.
Qed.

(** A successful call has created an array that is not too big. *)
Lemma smiles_to_onehots_Ok_size (strings : list pystr) (v : list pystr) (m : Z)
    (t : ndarray) :
  smiles_to_onehots strings v m = Ok t → strings ≠ [] →
  array_too_big Float64 [Z.of_nat (length strings); m; Z.of_nat (length v)]
  = false.
Proof.
  rewrite smiles_to_onehots_eq. intros Hok Hne.
  destruct strings as [|s0 rest]; [done|].
  destruct (decide (m < 0)%Z) as [Hm|Hm]; [done|].
  destruct (array_too_big Float64 [m; _]); [done|].
  destruct (forallb _ _); [|done].
  by destruct (array_too_big Float64 _).
Qed.

(** Success of the call from its conditions. *)
Lemma smiles_to_onehots_Ok_intro (strings : list pystr) (v : list pystr) (m : Z) :
  strings ≠ [] → (0 ≤ m)%Z →
  array_too_big Float64 [Z.of_nat (length strings); m; Z.of_nat (length v)]
  = false →
  (∀ s i, s ∈ strings → i < Z.to_nat m → chosen s v i < length v) →
  smiles_to_onehots strings v m
  = Ok (mk_ndarray Float64 [length strings; Z.to_nat m; length v]
          (concat (map (fun s => concat (sample_rows s v (Z.to_nat m))) strings))).
Proof.
  intros Hne Hm Hsize Hfits. rewrite smiles_to_onehots_eq.
  destruct strings as [|s0 rest]; [done|].
  rewrite decide_False by lia.
  rewrite (array_too_big_tail Float64 (Z.of_nat (length (s0 :: rest)))
             [m; Z.of_nat (length v)]);
    [|simpl length; lia|by apply Forall_dims_nonneg|exact Hsize].
  replace (forallb _ _) with true; [by rewrite Hsize|].
  symmetry. apply forallb_forall. intros s Hs.
  apply sample_fits_spec. intros i Hi. apply Hfits; [|done].
  by apply list_elem_of_In.
Qed.

(** The row of sample [j] and position [i] in the stacked buffer. *)
Lemma nd_row_encoded (strings : list pystr) (v : list pystr) (M j i : nat)
    (s : pystr) (d : dtype) :
  strings !! j = Some s → i < M →
  nd_row (mk_ndarray d [length strings; M; length v]
            (concat (map (fun s => concat (sample_rows s v M)) strings))) j i
  = Some (one_hot (length v) (chosen s v i)).
Proof.
  intros Hj Hi. unfold nd_row. cbn [nd_shape nd_data].
  rewrite decide_True by (split; [by eapply lookup_lt_Some|done]).
  f_equal.
  rewrite <-(map_map (fun s => sample_rows s v M) (@concat Z)).
  rewrite concat_map_concat.
  rewrite <-(app_nil_r (concat (concat _))).
  apply chunk_concat.
  - apply Forall_concat, Forall_forall. intros rows Hrows.
    apply list_elem_of_fmap in Hrows as (s' & -> & _).
    apply Forall_length_sample_rows.
  - rewrite (lookup_concat_uniform _ M j i (sample_rows s v M)).
    + by apply lookup_sample_rows.
    + apply Forall_forall. intros rows Hrows.
      apply list_elem_of_fmap in Hrows as (s' & -> & _).
      apply length_sample_rows.
    + change (map ?f ?l) with (f <$> l). by rewrite list_lookup_fmap, Hj.
    + done.
Qed.

(** The sub-array of sample [j] in the stacked buffer. *)
Lemma nd_slice_encoded (strings : list pystr) (v : list pystr) (M j : nat)
    (s : pystr) (d : dtype) :
  strings !! j = Some s →
  nd_slice (mk_ndarray d [length strings; M; length v]
              (concat (map (fun s => concat (sample_rows s v M)) strings))) j
  = Some (mk_ndarray d [M; length v] (concat (sample_rows s v M))).
Proof.
  intros Hj. unfold nd_slice. cbn [nd_shape nd_data nd_dtype foldr].
  rewrite decide_True by (by eapply lookup_lt_Some).
  do 2 f_equal.
  rewrite <-(app_nil_r (concat (map _ strings))).
  apply chunk_concat.
  - apply Forall_forall. intros block Hblock.
    apply list_elem_of_fmap in Hblock as (s' & -> & _).
    rewrite length_sample_block. lia.
  - change (map ?f ?l) with (f <$> l). by rewrite list_lookup_fmap, Hj.
Qed.

(** ** One-hot rows *)

Lemma lookup_one_hot (l k k' : nat) :
  k < l → k' < l →
  one_hot l k !! k' = Some (if decide (k' = k) then 1%Z else 0%Z).
Proof.
  intros Hk Hk'. unfold one_hot. destruct (decide (k' = k)) as [->|Hne].
  - apply list_lookup_insert_eq. by rewrite length_replicate.
  - rewrite list_lookup_insert_ne by done. by apply lookup_replicate_2.
Qed.

Lemma row_sum_cons (x : Z) (row : list Z) : row_sum (x :: row) = (x + row_sum row)%Z.
Proof. reflexivity. Qed.

Lemma row_sum_replicate_0 (l : nat) : row_sum (replicate l 0%Z) = 0%Z.
Proof.
  induction l as [|l IH]; [done|].
  cbn [replicate]. by rewrite row_sum_cons, IH.
Qed.

Lemma row_sum_one_hot (l k : nat) : k < l → row_sum (one_hot l k) = 1%Z.
Proof.
  unfold one_hot. revert k. induction l as [|l IH]; intros k Hk; [lia|].
  destruct k as [|k]; cbn [replicate]; simpl insert; rewrite row_sum_cons.
  - by rewrite row_sum_replicate_0.
  - rewrite IH by lia. done.
Qed.

Lemma Forall_bit_one_hot (l k : nat) :
  Forall (fun x => x = 0%Z ∨ x = 1%Z) (one_hot l k).
Proof.
  unfold one_hot. apply Forall_insert; [|by right].
  apply Forall_replicate. by left.
Qed.

(** ** The encoding policy *)

(** C2. For sample [j] and position [i] below max_length, the encoder
    chooses an index without raising: the first position of the
    character in the vocabulary when the position is inside the string
    and the character occurs in the vocabulary, 0 when the position is
    inside the string and the character does not occur in the
    vocabulary, and 1 when the position is at or beyond the length of
    the string; in the tensor the call returns, the row of that sample
    and position is one at the chosen index and zero elsewhere. *)
Theorem encode_index_policy (strings : list pystr) (v : list pystr) (m : Z)
    (j i : nat) (s : pystr) :
  strings !! j = Some s →
  (Z.of_nat i < m)%Z →
  ∃ k : nat,
    one_hot_index s v i = Ok k
    ∧ (∀ c, s !! i = Some c → str1 c ∈ v →
            v !! k = Some (str1 c) ∧ ∀ k', k' < k → v !! k' ≠ Some (str1 c))
    ∧ (∀ c, s !! i = Some c → str1 c ∉ v → k = 0)
    ∧ (length s ≤ i → k = 1)
    ∧ (∀ t, smiles_to_onehots strings v m = Ok t →
            ∃ row : list Z,
              nd_row t j i = Some row
              ∧ ∀ k', k' < length v →
                      row !! k' = Some (if decide (k' = k) then 1%Z else 0%Z)).
Proof.
  intros Hj Hi. exists (chosen s v i).
  split; [apply one_hot_index_chosen|].
  split; [intros c Hc Hin; by apply chosen_found|].
  split; [intros c Hc Hnin; by eapply chosen_absent|].
  split; [apply chosen_padding|].
  intros t Hok.
  assert (Hne : strings ≠ []) by (intros ->; done).
  destruct (smiles_to_onehots_Ok_inv _ _ _ _ Hok Hne) as (Hm & Hfits & ->).
  assert (Hk : chosen s v i < length v).
  { apply Hfits; [by eapply list_elem_of_lookup_2|lia]. }
  exists (one_hot (length v) (chosen s v i)).
  split; [apply nd_row_encoded; [done|lia]|].
  intros k' Hk'. by apply lookup_one_hot.
Qed.

Lemma encode_index_policy_witness :
  ∃ k : nat,
    one_hot_index (lit "CC1") [lit "NULL"; lit "PAD"; lit "1"; lit "C"] 2 = Ok k
    ∧ (∀ c, lit "CC1" !! 2 = Some c →
            str1 c ∈ [lit "NULL"; lit "PAD"; lit "1"; lit "C"] →
            [lit "NULL"; lit "PAD"; lit "1"; lit "C"] !! k = Some (str1 c)
            ∧ ∀ k', k' < k →
                    [lit "NULL"; lit "PAD"; lit "1"; lit "C"] !! k' ≠ Some (str1 c))
    ∧ (∀ c, lit "CC1" !! 2 = Some c →
            str1 c ∉ [lit "NULL"; lit "PAD"; lit "1"; lit "C"] → k = 0)
    ∧ (length (lit "CC1") ≤ 2 → k = 1)
    ∧ (∀ t, smiles_to_onehots [lit "C"; lit "CC1"]
              [lit "NULL"; lit "PAD"; lit "1"; lit "C"] 4 = Ok t →
            ∃ row : list Z,
              nd_row t 1 2 = Some row
              ∧ ∀ k', k' < length [lit "NULL"; lit "PAD"; lit "1"; lit "C"] →
                      row !! k' = Some (if decide (k' = k) then 1%Z else 0%Z)).
Proof.
  apply (encode_index_policy [lit "C"; lit "CC1"]
           [lit "NULL"; lit "PAD"; lit "1"; lit "C"] 4 1 2 (lit "CC1")).
  - reflexivity.
  - lia.
Defined.

(** C3. Every row of the returned tensor, at every sample and position,
    has exactly one entry equal to 1 and 0 everywhere else, so that its
    sum along the vocabulary axis is 1. *)
Theorem encode_rows_one_hot (strings : list pystr) (v : list pystr) (m : Z)
    (t : ndarray) (j i : nat) :
  smiles_to_onehots strings v m = Ok t →
  j < length strings →
  (Z.of_nat i < m)%Z →
  ∃ (row : list Z) (k : nat),
    nd_row t j i = Some row
    ∧ length row = length v
    ∧ k < length v
    ∧ row !! k = Some 1%Z
    ∧ (∀ k', k' < length v → k' ≠ k → row !! k' = Some 0%Z)
    ∧ row_sum row = 1%Z.
Proof.
  intros Hok Hj Hi.
  apply lookup_lt_is_Some_2 in Hj as [s Hj].
  assert (Hne : strings ≠ []) by (intros ->; done).
  destruct (smiles_to_onehots_Ok_inv _ _ _ _ Hok Hne) as (Hm & Hfits & ->).
  assert (Hk : chosen s v i < length v).
  { apply Hfits; [by eapply list_elem_of_lookup_2|lia]. }
  exists (one_hot (length v) (chosen s v i)), (chosen s v i).
  split; [apply nd_row_encoded; [done|lia]|].
  split; [unfold one_hot; by rewrite length_insert, length_replicate|].
  split; [done|].
  split; [rewrite lookup_one_hot by done; by rewrite decide_True|].
  split; [|by apply row_sum_one_hot].
  intros k' Hk' Hne'. rewrite lookup_one_hot by done. by rewrite decide_False.
Qed.

Lemma encode_rows_one_hot_witness :
  ∃ (row : list Z) (k : nat),
    nd_row (mk_ndarray Float64 [1; 4; 4]
              [0;0;0;1; 0;0;0;1; 0;0;1;0; 0;1;0;0]%Z) 0 3 = Some row
    ∧ length row = length [lit "NULL"; lit "PAD"; lit "1"; lit "C"]
    ∧ k < length [lit "NULL"; lit "PAD"; lit "1"; lit "C"]
    ∧ row !! k = Some 1%Z
    ∧ (∀ k', k' < length [lit "NULL"; lit "PAD"; lit "1"; lit "C"] →
             k' ≠ k → row !! k' = Some 0%Z)
    ∧ row_sum row = 1%Z.
Proof.
  apply (encode_rows_one_hot [lit "CC1"] [lit "NULL"; lit "PAD"; lit "1"; lit "C"]
           4 _ 0 3).
  - vm_compute. reflexivity.
  - simpl. lia.
  - lia.
Defined.

(** ** Shape, element type and exceptions *)

(** C4, as the claim states it, fails on the empty list: the array
    returned for no strings is one-dimensional, of shape (0,). *)
Lemma encode_shape_empty_list_counterexample :
  ∃ t : ndarray,
    smiles_to_onehots [] [lit "NULL"; lit "PAD"] 3 = Ok t
    ∧ nd_shape t ≠ [length (@nil pystr); Z.to_nat 3; length [lit "NULL"; lit "PAD"]].
Proof.
  exists (mk_ndarray Float64 [0] []). split; [reflexivity|]. discriminate.
Qed.

(** C4, amended. For a non-empty list of strings, the returned tensor
    has shape (number of strings, max_length, vocabulary size) whatever
    the lengths of the strings; for the empty list it has shape (0,). *)
Theorem encode_shape (strings : list pystr) (v : list pystr) (m : Z) (t : ndarray) :
  smiles_to_onehots strings v m = Ok t →
  (strings ≠ [] →
   (0 ≤ m)%Z ∧ nd_shape t = [length strings; Z.to_nat m; length v])
  ∧ (strings = [] → nd_shape t = [0]).
Proof.
  intros Hok. split.
  - intros Hne.
    destruct (smiles_to_onehots_Ok_inv _ _ _ _ Hok Hne) as (Hm & _ & ->). done.
  - intros ->. rewrite smiles_to_onehots_eq in Hok. by injection Hok as <-.
Qed.

Lemma encode_shape_witness :
  (([lit "CC1"; lit "C"] : list pystr) ≠ [] →
   (0 ≤ 4)%Z
   ∧ nd_shape (mk_ndarray Float64 [2; 4; 4]
                 [0;0;0;1; 0;0;0;1; 0;0;1;0; 0;1;0;0;
                  0;0;0;1; 0;1;0;0; 0;1;0;0; 0;1;0;0]%Z)
     = [length [lit "CC1"; lit "C"]; Z.to_nat 4;
        length [lit "NULL"; lit "PAD"; lit "1"; lit "C"]])
  ∧ (([lit "CC1"; lit "C"] : list pystr) = [] →
     nd_shape (mk_ndarray Float64 [2; 4; 4]
                 [0;0;0;1; 0;0;0;1; 0;0;1;0; 0;1;0;0;
                  0;0;0;1; 0;1;0;0; 0;1;0;0; 0;1;0;0]%Z) = [0]).
Proof.
  apply (encode_shape [lit "CC1"; lit "C"] [lit "NULL"; lit "PAD"; lit "1"; lit "C"] 4).
  vm_compute. reflexivity.
Defined.

(** C5, as the claim states it, fails on the empty vocabulary: the write
    into the column raises IndexError. *)
Lemma encode_empty_vocabulary_counterexample :
  smiles_to_onehots [lit "C"] [] 1 = Raise IndexError.
Proof. vm_compute. reflexivity. Qed.

(** With an empty vocabulary, every call on a non-empty list and a
    positive length that numpy accepts as a dimension raises
    IndexError. *)
Lemma encode_empty_vocabulary_raises (strings : list pystr) (m : Z) :
  strings ≠ [] → (0 < m)%Z → array_too_big Float64 [m; 0%Z] = false →
  smiles_to_onehots strings [] m = Raise IndexError.
Proof.
  intros Hne Hm Hsize. rewrite smiles_to_onehots_eq.
  destruct strings as [|s rest]; [done|].
  rewrite decide_False by lia.
  change (Z.of_nat (length (@nil (list N)))) with 0%Z. rewrite Hsize.
  replace (forallb _ _) with false; [done|].
  symmetry. cbn [forallb]. apply andb_false_intro1.
  apply not_true_is_false. rewrite sample_fits_spec.
  intros H. specialize (H 0 ltac:(lia)). simpl in H. lia.
Qed.

(** C5, amended. The call returns without raising when the list of
    strings is empty; and when max_length is zero, or max_length is not
    negative and the vocabulary has two entries or more, provided the
    tensor is not too big for numpy: 8 bytes times the product of the
    non-zero ones among the number of strings, max_length and the size
    of the vocabulary is at most [npy_intp_max]. *)
Theorem encode_no_error (strings : list pystr) (v : list pystr) (m : Z) :
  strings = []
  ∨ ((m = 0%Z ∨ ((0 ≤ m)%Z ∧ 2 ≤ length v))
     ∧ array_too_big Float64
         [Z.of_nat (length strings); m; Z.of_nat (length v)] = false) →
  ∃ t : ndarray, smiles_to_onehots strings v m = Ok t.
Proof.
  intros Hcond.
  destruct (decide (strings = [])) as [->|Hne]; [by eexists|].
  destruct Hcond as [?|[Hm Hsize]]; [done|].
  eexists. apply smiles_to_onehots_Ok_intro; [done|..].
  - destruct Hm as [->|[? _]]; [lia|done].
  - exact Hsize.
  - intros s i _ Hi. destruct Hm as [->|[_ Hv]]; [simpl in Hi; lia|].
    by apply chosen_lt.
Qed.

Lemma encode_no_error_witness :
  ∃ t : ndarray,
    smiles_to_onehots [lit "CC1"; lit ""; lit "XYZ"] [lit "NULL"; lit "PAD"] 2 = Ok t.
Proof.
  apply (encode_no_error [lit "CC1"; lit ""; lit "XYZ"] [lit "NULL"; lit "PAD"] 2).
  right. split.
  - right. split; [lia|simpl; lia].
  - vm_compute. reflexivity.
Defined.

(** C8, as the claim states it, fails on the element type: the returned
    tensor holds float64 elements, not integers. *)
Lemma encode_dtype_counterexample :
  ∃ t : ndarray,
    smiles_to_onehots [lit "C"] [lit "NULL"; lit "PAD"; lit "C"] 1 = Ok t
    ∧ is_integer_dtype (nd_dtype t) = false.
Proof.
  exists (mk_ndarray Float64 [1; 1; 3] [0; 0; 1]%Z). split; reflexivity.
Qed.

(** C8, amended. The returned tensor has element type float64 and every
    entry of it is exactly 0 or 1. *)
Theorem encode_entries (strings : list pystr) (v : list pystr) (m : Z) (t : ndarray) :
  smiles_to_onehots strings v m = Ok t →
  nd_dtype t = Float64 ∧ Forall (fun x => x = 0%Z ∨ x = 1%Z) (nd_data t).
Proof.
  intros Hok. destruct (decide (strings = [])) as [->|Hne].
  - rewrite smiles_to_onehots_eq in Hok. injection Hok as <-. by split.
  - destruct (smiles_to_onehots_Ok_inv _ _ _ _ Hok Hne) as (_ & _ & ->).
    split; [done|]. cbn [nd_data].
    apply Forall_concat, Forall_forall. intros block Hblock.
    apply list_elem_of_fmap in Hblock as (s & -> & _).
    apply Forall_concat, Forall_forall. intros row Hrow.
    apply list_elem_of_fmap in Hrow as (i & -> & _).
    apply Forall_bit_one_hot.
Qed.

Lemma encode_entries_witness :
  nd_dtype (mk_ndarray Float64 [1; 1; 3] [0; 0; 1]%Z) = Float64
  ∧ Forall (fun x => x = 0%Z ∨ x = 1%Z)
      (nd_data (mk_ndarray Float64 [1; 1; 3] [0; 0; 1]%Z)).
Proof.
  apply (encode_entries [lit "C"] [lit "NULL"; lit "PAD"; lit "C"] 1).
  vm_compute. reflexivity.
Defined.

(** ** Samples, truncation and reserved positions *)

(** C9. The sub-array of sample [j] in the tensor of a batch is the
    sub-array of sample 0 in the tensor of the batch made of string [j]
    alone. *)
Theorem encode_samples_independent (strings : list pystr) (v : list pystr)
    (m : Z) (t : ndarray) (j : nat) (s : pystr) :
  smiles_to_onehots strings v m = Ok t →
  strings !! j = Some s →
  ∃ t1 a : ndarray,
    smiles_to_onehots [s] v m = Ok t1
    ∧ nd_slice t j = Some a
    ∧ nd_slice t1 0 = Some a.
Proof.
  intros Hok Hj.
  assert (Hne : strings ≠ []) by (intros ->; done).
  pose proof (smiles_to_onehots_Ok_size _ _ _ _ Hok Hne) as Hsize.
  destruct (smiles_to_onehots_Ok_inv _ _ _ _ Hok Hne) as (Hm & Hfits & ->).
  eexists _, _. split; [|split].
  - apply smiles_to_onehots_Ok_intro; [done|done| |].
    { apply (array_too_big_le _ (Z.of_nat (length strings)));
        [|by apply Forall_dims_nonneg|done].
      apply lookup_lt_Some in Hj. simpl. lia. }
    intros s' i Hs' Hi. apply list_elem_of_singleton in Hs' as ->.
    apply Hfits; [by eapply list_elem_of_lookup_2|done].
  - by apply nd_slice_encoded.
  - by apply (nd_slice_encoded [s] v (Z.to_nat m) 0 s).
Qed.

Lemma encode_samples_independent_witness :
  ∃ t1 a : ndarray,
    smiles_to_onehots [lit "C"] [lit "NULL"; lit "PAD"; lit "1"; lit "C"] 4 = Ok t1
    ∧ nd_slice (mk_ndarray Float64 [2; 4; 4]
                  [0;0;0;1; 0;0;0;1; 0;0;1;0; 0;1;0;0;
                   0;0;0;1; 0;1;0;0; 0;1;0;0; 0;1;0;0]%Z) 1 = Some a
    ∧ nd_slice t1 0 = Some a.
Proof.
  apply (encode_samples_independent [lit "CC1"; lit "C"]
           [lit "NULL"; lit "PAD"; lit "1"; lit "C"] 4 _ 1 (lit "C")).
  - vm_compute. reflexivity.
  - reflexivity.
Defined.

(** The positions below [n] see the same characters in a string and in
    its prefix of length [n]. *)
Lemma chosen_take (s : pystr) (v : list pystr) (n i : nat) :
  i < n → chosen (take n s) v i = chosen s v i.
Proof.
  intros Hi. unfold chosen, one_hot_index, str_getitem.
  rewrite length_take, lookup_take_lt by done.
  destruct (decide (i < length s)) as [Hs|Hs].
  - by rewrite decide_True by lia.
  - by rewrite decide_False by lia.
Qed.

(** Two batches whose strings choose the same positions are encoded
    alike. *)
Lemma smiles_to_onehots_ext (strings1 strings2 : list pystr) (v : list pystr) (m : Z) :
  Forall2 (fun s1 s2 => ∀ i, i < Z.to_nat m → chosen s1 v i = chosen s2 v i)
          strings1 strings2 →
  smiles_to_onehots strings1 v m = smiles_to_onehots strings2 v m.
Proof.
  intros Hall. rewrite !smiles_to_onehots_eq.
  assert (Hfits : forallb (fun s => sample_fits s v m) strings1
                  = forallb (fun s => sample_fits s v m) strings2).
  { induction Hall as [|s1 s2 l1 l2 Hs Hall IH]; [done|].
    cbn [forallb]. rewrite IH. f_equal.
    unfold sample_fits, range. apply eq_true_iff_eq.
    rewrite !forallb_forall. split; intros H i Hin; pose proof Hin as Hlt;
      apply in_seq in Hlt; specialize (H i Hin);
      [rewrite <-Hs by lia|rewrite Hs by lia]; done. }
  assert (Hrows : map (fun s => concat (sample_rows s v (Z.to_nat m))) strings1
                  = map (fun s => concat (sample_rows s v (Z.to_nat m))) strings2).
  { clear Hfits. induction Hall as [|s1 s2 l1 l2 Hs Hall IH]; [done|].
    cbn [map]. rewrite IH. f_equal. f_equal.
    unfold sample_rows. apply map_ext_in. intros i Hin.
    apply in_seq in Hin. rewrite Hs by lia. done. }
  pose proof (Forall2_length _ _ _ Hall) as Hlen.
  destruct Hall; [done|].
  rewrite Hfits, Hrows, Hlen. done.
Qed.

(** C7. A string longer than max_length is encoded as its prefix of
    length max_length is, alone and in any batch; the excess characters
    raise nothing: on a non-empty vocabulary, and with a tensor that is
    not too big for numpy, the call returns. *)
Theorem encode_truncates (pre post : list pystr) (s : pystr) (v : list pystr) (m : Z) :
  (m < Z.of_nat (length s))%Z →
  smiles_to_onehots (pre ++ s :: post) v m
  = smiles_to_onehots (pre ++ take (Z.to_nat m) s :: post) v m
  ∧ smiles_to_onehots [s] v m = smiles_to_onehots [take (Z.to_nat m) s] v m
  ∧ ((0 ≤ m)%Z → v ≠ [] →
     array_too_big Float64 [1%Z; m; Z.of_nat (length v)] = false →
     ∃ t : ndarray, smiles_to_onehots [s] v m = Ok t).
Proof.
  intros Hlong.
  assert (Hsame : ∀ l : list pystr,
             Forall2 (fun s1 s2 : pystr =>
                        ∀ i, i < Z.to_nat m → chosen s1 v i = chosen s2 v i) l l).
  { intros l. induction l; by constructor. }
  assert (Hcut : ∀ i, i < Z.to_nat m →
                      chosen s v i = chosen (take (Z.to_nat m) s) v i).
  { intros i Hi. symmetry. by apply chosen_take. }
  split; [|split].
  - apply smiles_to_onehots_ext, Forall2_app; [apply Hsame|].
    constructor; [exact Hcut|apply Hsame].
  - apply smiles_to_onehots_ext. constructor; [exact Hcut|constructor].
  - intros Hm Hv Hsize. eexists.
    apply smiles_to_onehots_Ok_intro; [done|done|exact Hsize|].
    intros s' i Hs' Hi. apply list_elem_of_singleton in Hs' as ->.
    apply chosen_lt_in_string; [lia|done].
Qed.

Lemma encode_truncates_witness :
  smiles_to_onehots ([lit "C"] ++ lit "CC1CC" :: [lit "1"])
    [lit "NULL"; lit "PAD"; lit "1"; lit "C"] 3
  = smiles_to_onehots ([lit "C"] ++ take (Z.to_nat 3) (lit "CC1CC") :: [lit "1"])
      [lit "NULL"; lit "PAD"; lit "1"; lit "C"] 3
  ∧ smiles_to_onehots [lit "CC1CC"] [lit "NULL"; lit "PAD"; lit "1"; lit "C"] 3
    = smiles_to_onehots [take (Z.to_nat 3) (lit "CC1CC")]
        [lit "NULL"; lit "PAD"; lit "1"; lit "C"] 3
  ∧ ((0 ≤ 3)%Z → [lit "NULL"; lit "PAD"; lit "1"; lit "C"] ≠ [] →
     array_too_big Float64
       [1%Z; 3%Z; Z.of_nat (length [lit "NULL"; lit "PAD"; lit "1"; lit "C"])]
     = false →
     ∃ t : ndarray,
       smiles_to_onehots [lit "CC1CC"] [lit "NULL"; lit "PAD"; lit "1"; lit "C"] 3
       = Ok t).
Proof.
  apply (encode_truncates [lit "C"] [lit "1"] (lit "CC1CC")
           [lit "NULL"; lit "PAD"; lit "1"; lit "C"] 3).
  simpl. lia.
Defined.

(** C10. In a vocabulary built by [generate_charset], a one-character
    entry stands at index 2 or later; with such a vocabulary, a position
    inside the string whose character occurs in the vocabulary is
    assigned an index that is neither 0 nor 1. *)
Theorem charset_reserved_positions (corpus : list pystr) :
  (∀ (c : char) (k : nat), generate_charset corpus !! k = Some (str1 c) → 2 ≤ k)
  ∧ (∀ (s : pystr) (i : nat) (c : char),
        s !! i = Some c → str1 c ∈ generate_charset corpus →
        ∃ k, one_hot_index s (generate_charset corpus) i = Ok k
             ∧ 2 ≤ k
             ∧ generate_charset corpus !! k = Some (str1 c)).
Proof.
  assert (Hpos : ∀ (c : char) (k : nat),
             generate_charset corpus !! k = Some (str1 c) → 2 ≤ k).
  { intros c k Hk. rewrite generate_charset_unfold in Hk.
    destruct k as [|[|k]]; [discriminate Hk|discriminate Hk|lia]. }
  split; [exact Hpos|].
  intros s i c Hc Hin. exists (chosen s (generate_charset corpus) i).
  split; [apply one_hot_index_chosen|].
  destruct (chosen_found _ _ _ _ Hc Hin) as [Hk _].
  split; [by eapply Hpos|done].
Qed.

Lemma charset_reserved_positions_witness :
  generate_charset [lit "CC1"] !! 3 = Some (str1 67%N)
  ∧ 2 ≤ 3
  ∧ ∃ k, one_hot_index (lit "1C") (generate_charset [lit "CC1"]) 1 = Ok k
         ∧ 2 ≤ k
         ∧ generate_charset [lit "CC1"] !! k = Some (str1 67%N).
Proof.
  assert (H3 : generate_charset [lit "CC1"] !! 3 = Some (str1 67%N))
    by (vm_compute; reflexivity).
  split; [exact H3|]. split.
  - exact (proj1 (charset_reserved_positions [lit "CC1"]) 67%N 3 H3).
  - apply (proj2 (charset_reserved_positions [lit "CC1"]) (lit "1C") 1 67%N).
    + reflexivity.
    + eapply list_elem_of_lookup_2. exact H3.
Defined.

(** * Further properties of the code *)

(** ** Helper facts *)

Lemma forallb_false_iff {A} (f : A → bool) (l : list A) :
  forallb f l = false ↔ ∃ x, x ∈ l ∧ f x = false.
Proof.
  induction l as [|a l IH]; cbn [forallb].
  - split; [discriminate|]. intros (x & Hx & _). by apply elem_of_nil in Hx.
  - rewrite andb_false_iff, IH. split.
    + intros [Ha|(x & Hx & Hfx)]; [exists a|exists x]; split; auto; by constructor.
    + intros (x & Hx & Hfx). apply elem_of_cons in Hx as [->|Hx]; [by left|].
      right. by exists x.
Qed.

Lemma sample_fits_false_iff (s : pystr) (v : list pystr) (m : Z) :
  sample_fits s v m = false ↔ ∃ i, i < Z.to_nat m ∧ length v ≤ chosen s v i.
Proof.
  unfold sample_fits, range. rewrite forallb_false_iff. split.
  - intros (i & Hi & Hf). apply list_elem_of_In, in_seq in Hi.
    apply bool_decide_eq_false_1 in Hf. exists i. lia.
  - intros (i & Hi & Hk). exists i. split.
    + apply list_elem_of_In, in_seq. lia.
    + apply bool_decide_eq_false_2. lia.
Qed.

(** The row of a sample and position in a returned tensor. *)
Lemma nd_row_of_Ok (strings : list pystr) (v : list pystr) (m : Z) (t : ndarray)
    (j i : nat) (s : pystr) :
  smiles_to_onehots strings v m = Ok t → strings !! j = Some s →
  (Z.of_nat i < m)%Z →
  chosen s v i < length v
  ∧ nd_row t j i = Some (one_hot (length v) (chosen s v i)).
Proof.
  intros Hok Hj Hi.
  assert (Hne : strings ≠ []) by (intros ->; done).
  destruct (smiles_to_onehots_Ok_inv _ _ _ _ Hok Hne) as (Hm & Hfits & ->).
  split.
  - apply Hfits; [by eapply list_elem_of_lookup_2|lia].
  - apply nd_row_encoded; [done|lia].
Qed.

(** Inside the string, the chosen position is 0 or holds the character. *)
Lemma chosen_in_string (s : pystr) (v : list pystr) (i : nat) (c : char) :
  s !! i = Some c →
  ((str1 c ∉ v) ∧ chosen s v i = 0)
  ∨ (str1 c ∈ v ∧ v !! chosen s v i = Some (str1 c)
     ∧ ∀ k', k' < chosen s v i → v !! k' ≠ Some (str1 c)).
Proof.
  intros Hc. destruct (decide (str1 c ∈ v)) as [Hin|Hnin].
  - right. split; [done|]. by apply chosen_found.
  - left. split; [done|]. by eapply chosen_absent.
Qed.

(** ** Which exception, and when *)

(** Some write into a column is out of range exactly when
    max_smiles_chars is positive and the vocabulary is empty, or has a
    single entry while some string needs padding. *)
Lemma some_write_fails_iff (strings : list pystr) (v : list pystr) (m : Z) :
  strings ≠ [] →
  forallb (fun s => sample_fits s v m) strings = false ↔
  (0 < m)%Z
  ∧ (v = [] ∨ (length v = 1 ∧ ∃ s, s ∈ strings ∧ (Z.of_nat (length s) < m)%Z)).
Proof.
  intros Hne. split.
  - intros Hfits.
    apply forallb_false_iff in Hfits as (s & Hs & Hf).
    apply sample_fits_false_iff in Hf as (i & Hi & Hk).
    split; [lia|].
    destruct v as [|x [|y v']]; [by left| |].
    + right. split; [done|]. exists s. split; [done|].
      destruct (decide (i < length s)) as [Hin|Hout]; [|lia].
      pose proof (chosen_lt_in_string s [x] i Hin ltac:(done)). lia.
    + pose proof (chosen_lt s (x :: y :: v') i ltac:(simpl; lia)). lia.
  - intros (Hpos & Hv). apply forallb_false_iff.
    destruct Hv as [->|(Hlen & s & Hs & Hshort)].
    + destruct strings as [|s0 rest]; [done|].
      exists s0. split; [by left|]. apply sample_fits_false_iff.
      exists 0. split; [lia|simpl; lia].
    + exists s. split; [done|]. apply sample_fits_false_iff.
      exists (length s). split; [lia|].
      rewrite chosen_padding by done. lia.
Qed.

(** X1. The call raises ValueError exactly when the list of strings is
    not empty and max_smiles_chars is negative, or the array of one
    string is too big for numpy, or no write into a column is out of
    range and the stacked array is too big: the ValueError of a failed
    vocabulary lookup never leaves the function. *)
Theorem encode_raises_ValueError_iff (strings : list pystr) (v : list pystr) (m : Z) :
  smiles_to_onehots strings v m = Raise ValueError ↔
  strings ≠ []
  ∧ ((m < 0)%Z
     ∨ array_too_big Float64 [m; Z.of_nat (length v)] = true
     ∨ (array_too_big Float64
          [Z.of_nat (length strings); m; Z.of_nat (length v)] = true
        ∧ ¬ ((0 < m)%Z
             ∧ (v = [] ∨ (length v = 1
                          ∧ ∃ s, s ∈ strings ∧ (Z.of_nat (length s) < m)%Z))))).
Proof.
  rewrite smiles_to_onehots_eq. destruct strings as [|s0 rest].
  { split; [discriminate|]. by intros [? _]. }
  rewrite <-(some_write_fails_iff (s0 :: rest) v m) by done.
  destruct (decide (m < 0)%Z) as [Hm|Hm]; [by split; [split; [|left]|]|].
  generalize (array_too_big Float64 [m; Z.of_nat (length v)]).
  generalize (array_too_big Float64
                [Z.of_nat (length (s0 :: rest)); m; Z.of_nat (length v)]).
  generalize (forallb (fun s => sample_fits s v m) (s0 :: rest)).
  intros fits all one.
  destruct one; [by split; [split; [|right; left]|]|].
  destruct fits, all.
  - split; [intros _|done]. split; [done|]. right. right. by split.
  - split; [discriminate|].
    intros (_ & [?|[?|[? _]]]); [lia|done|done].
  - split; [discriminate|].
    intros (_ & [?|[?|[_ Hno]]]); [lia|done|]. by destruct Hno.
  - split; [discriminate|].
    intros (_ & [?|[?|[_ Hno]]]); [lia|done|]. by destruct Hno.
Qed.

(** X2. The call raises IndexError exactly when the list of strings is
    not empty, max_smiles_chars is positive and the array of one string
    is not too big for numpy, and the vocabulary is empty or has a
    single entry while some string is shorter than max_smiles_chars. *)
Theorem encode_raises_IndexError_iff (strings : list pystr) (v : list pystr) (m : Z) :
  smiles_to_onehots strings v m = Raise IndexError ↔
  strings ≠ [] ∧ (0 < m)%Z
  ∧ array_too_big Float64 [m; Z.of_nat (length v)] = false
  ∧ (v = [] ∨ (length v = 1 ∧ ∃ s, s ∈ strings ∧ (Z.of_nat (length s) < m)%Z)).
Proof.
  rewrite smiles_to_onehots_eq. destruct strings as [|s0 rest].
  { split; [discriminate|]. by intros [? _]. }
  pose proof (some_write_fails_iff (s0 :: rest) v m ltac:(done)) as Hiff.
  destruct (decide (m < 0)%Z) as [Hm|Hm].
  { split; [discriminate|]. intros (_ & ? & _). lia. }
  revert Hiff.
  generalize (array_too_big Float64 [m; Z.of_nat (length v)]).
  generalize (array_too_big Float64
                [Z.of_nat (length (s0 :: rest)); m; Z.of_nat (length v)]).
  generalize (forallb (fun s => sample_fits s v m) (s0 :: rest)).
  intros fits all one Hiff.
  destruct one.
  { split; [discriminate|]. by intros (_ & _ & ? & _). }
  destruct fits.
  - split; [by destruct all|].
    intros (_ & Hpos & _ & Hv).
    assert (true = false) by (by apply Hiff). done.
  - split; [intros _|done].
    destruct (proj1 Hiff eq_refl) as [Hpos Hv]. done.
Qed.

(** X3. A string on which the call raises makes every batch that
    contains it raise the same exception. *)
Theorem encode_failure_spreads (strings : list pystr) (v : list pystr) (m : Z)
    (s : pystr) (e : exn) :
  smiles_to_onehots [s] v m = Raise e → s ∈ strings →
  smiles_to_onehots strings v m = Raise e.
Proof.
  rewrite !smiles_to_onehots_eq. intros Hone Hin.
  destruct strings as [|s0 rest]; [by apply elem_of_nil in Hin|].
  destruct (decide (m < 0)%Z) as [Hm|Hm]; [done|].
  change (Z.of_nat (length [s])) with 1%Z in Hone.
  rewrite array_too_big_one in Hone.
  destruct (array_too_big Float64 [m; Z.of_nat (length v)]); [done|].
  cbn [forallb] in Hone. rewrite andb_true_r in Hone.
  destruct (sample_fits s v m) eqn:Hs; [done|].
  replace (forallb _ (s0 :: rest)) with false; [done|].
  symmetry. apply forallb_false_iff. by exists s.
Qed.

Lemma encode_failure_spreads_witness :
  smiles_to_onehots [lit "CC1"; lit "C"; lit "1C1"] [lit "C"] 3 = Raise IndexError.
Proof.
  apply (encode_failure_spreads [lit "CC1"; lit "C"; lit "1C1"] [lit "C"] 3 (lit "C")).
  - vm_compute. reflexivity.
  - apply list_elem_of_In. simpl. auto.
Defined.

(** ** The buffer and the batch *)

(** X4. The buffer of a returned array has as many elements as its shape
    announces, also for the empty list of strings. *)
Theorem encode_buffer_size (strings : list pystr) (v : list pystr) (m : Z)
    (t : ndarray) :
  smiles_to_onehots strings v m = Ok t →
  length (nd_data t) = foldr Nat.mul 1 (nd_shape t).
Proof.
  intros Hok. destruct (decide (strings = [])) as [->|Hne].
  - rewrite smiles_to_onehots_eq in Hok. by injection Hok as <-.
  - destruct (smiles_to_onehots_Ok_inv _ _ _ _ Hok Hne) as (_ & _ & ->).
    cbn [nd_data nd_shape foldr].
    rewrite (length_concat_uniform _ (Z.to_nat m * length v)).
    + rewrite length_map. lia.
    + apply Forall_forall. intros block Hblock.
      apply list_elem_of_fmap in Hblock as (s & -> & _).
      apply length_sample_block.
Qed.

Lemma encode_buffer_size_witness :
  length (nd_data (mk_ndarray Float64 [1; 1; 3] [0; 0; 1]%Z))
  = foldr Nat.mul 1 (nd_shape (mk_ndarray Float64 [1; 1; 3] [0; 0; 1]%Z)).
Proof.
  apply (encode_buffer_size [lit "C"] [lit "NULL"; lit "PAD"; lit "C"] 1).
  vm_compute. reflexivity.
Defined.

(** X5. Encoding two non-empty batches one after the other and joining
    the buffers is encoding the joined batch: the first axis is the sum
    of the two, the other axes are unchanged; the joined call raises
    ValueError instead when the joined tensor is too big for numpy. *)
Theorem encode_app (strings1 strings2 : list pystr) (v : list pystr) (m : Z)
    (t1 t2 : ndarray) :
  strings1 ≠ [] → strings2 ≠ [] →
  smiles_to_onehots strings1 v m = Ok t1 →
  smiles_to_onehots strings2 v m = Ok t2 →
  smiles_to_onehots (strings1 ++ strings2) v m
  = if array_too_big Float64
         [Z.of_nat (length strings1 + length strings2); m; Z.of_nat (length v)]
    then Raise ValueError
    else Ok (mk_ndarray Float64
               [length strings1 + length strings2; Z.to_nat m; length v]
               (nd_data t1 ++ nd_data t2)).
Proof.
  intros Hne1 Hne2 Hok1 Hok2.
  pose proof (smiles_to_onehots_Ok_size _ _ _ _ Hok1 Hne1) as Hsize1.
  destruct (smiles_to_onehots_Ok_inv _ _ _ _ Hok1 Hne1) as (Hm & Hfits1 & ->).
  destruct (smiles_to_onehots_Ok_inv _ _ _ _ Hok2 Hne2) as (_ & Hfits2 & ->).
  assert (Hone : array_too_big Float64 [m; Z.of_nat (length v)] = false).
  { apply (array_too_big_tail _ (Z.of_nat (length strings1)));
      [|by apply Forall_dims_nonneg|done].
    destruct strings1; [done|simpl; lia]. }
  assert (Hfits : forallb (fun s => sample_fits s v m) (strings1 ++ strings2)
                  = true).
  { apply forallb_forall. intros s Hs. apply sample_fits_spec. intros i Hi.
    apply list_elem_of_In, elem_of_app in Hs as [Hs|Hs]; auto. }
  rewrite smiles_to_onehots_eq.
  destruct (strings1 ++ strings2) as [|a l] eqn:El.
  { apply app_eq_nil in El as [? _]. done. }
  rewrite decide_False by lia. rewrite Hone, Hfits, <-El.
  cbn [nd_data]. by rewrite length_app, map_app, concat_app.
Qed.

Lemma encode_app_witness :
  smiles_to_onehots ([lit "C1"] ++ [lit "X"]) [lit "NULL"; lit "PAD"; lit "1"; lit "C"] 2
  = if array_too_big Float64
         [Z.of_nat (length [lit "C1"] + length [lit "X"]); 2%Z;
          Z.of_nat (length [lit "NULL"; lit "PAD"; lit "1"; lit "C"])]
    then Raise ValueError
    else Ok (mk_ndarray Float64
               [length [lit "C1"] + length [lit "X"]; Z.to_nat 2;
                length [lit "NULL"; lit "PAD"; lit "1"; lit "C"]]
               (nd_data (mk_ndarray Float64 [1; 2; 4] [0;0;0;1; 0;0;1;0]%Z)
                ++ nd_data (mk_ndarray Float64 [1; 2; 4] [1;0;0;0; 0;1;0;0]%Z))).
Proof.
  apply (encode_app [lit "C1"] [lit "X"] [lit "NULL"; lit "PAD"; lit "1"; lit "C"] 2).
  - discriminate.
  - discriminate.
  - vm_compute. reflexivity.
  - vm_compute. reflexivity.
Defined.

(** ** The vocabulary of a corpus and the encoding of that corpus *)

Lemma charset_char_position (corpus : list pystr) (c : char) (k : nat) :
  generate_charset corpus !! k = Some (str1 c) → 2 ≤ k.
Proof.
  rewrite generate_charset_unfold. intros Hk.
  destruct k as [|[|k]]; [discriminate Hk|discriminate Hk|lia].
Qed.

Lemma charset_covers (corpus : list pystr) (s : pystr) (c : char) :
  s ∈ corpus → c ∈ s → str1 c ∈ generate_charset corpus.
Proof.
  intros Hs Hc. rewrite generate_charset_unfold.
  do 2 apply list_elem_of_further.
  apply list_elem_of_fmap_2, elem_of_sorted.
  unfold set_of_str. rewrite elem_of_list_to_set.
  apply elem_of_join_empty. by exists s.
Qed.

Lemma length_generate_charset_ge (corpus : list pystr) :
  2 ≤ length (generate_charset corpus).
Proof. rewrite generate_charset_unfold. simpl. lia. Qed.

Lemma one_hot_inj (l k1 k2 : nat) :
  k1 < l → k2 < l → one_hot l k1 = one_hot l k2 → k1 = k2.
Proof.
  intros Hk1 Hk2 Heq.
  pose proof (lookup_one_hot l k1 k1 Hk1 Hk1) as H1.
  rewrite Heq, (lookup_one_hot l k2 k1 Hk2 Hk1) in H1.
  destruct (decide (k1 = k2)) as [|Hne]; [done|].
  rewrite decide_True in H1 by done. discriminate H1.
Qed.

(** X6. Encoding a corpus with the vocabulary generated from it returns
    for every non-negative max_smiles_chars whose tensor is not too big
    for numpy, and no row of the tensor is one at index 0: the NULL
    entry is never used. *)
Theorem encode_corpus_no_null (corpus : list pystr) (m : Z) :
  (0 ≤ m)%Z →
  array_too_big Float64
    [Z.of_nat (length corpus); m; Z.of_nat (length (generate_charset corpus))]
  = false →
  ∃ t : ndarray,
    smiles_to_onehots corpus (generate_charset corpus) m = Ok t
    ∧ ∀ (j i : nat) (row : list Z), nd_row t j i = Some row → row !! 0 = Some 0%Z.
Proof.
  intros Hm Hsize. pose proof (length_generate_charset_ge corpus) as Hlen.
  destruct (decide (corpus = [])) as [->|Hne].
  { eexists. split; [reflexivity|]. intros j i row Hrow. discriminate Hrow. }
  eexists. split.
  { apply smiles_to_onehots_Ok_intro; [done|done|exact Hsize|].
    intros s i _ _. by apply chosen_lt. }
  intros j i row Hrow.
  assert (Hji : j < length corpus ∧ i < Z.to_nat m).
  { unfold nd_row in Hrow. cbn [nd_shape] in Hrow.
    by destruct (decide (j < length corpus ∧ i < Z.to_nat m)). }
  destruct Hji as [Hj Hi]. apply lookup_lt_is_Some_2 in Hj as [s Hj].
  rewrite (nd_row_encoded corpus _ _ j i s) in Hrow by done.
  injection Hrow as <-.
  rewrite lookup_one_hot by (by apply chosen_lt || lia).
  rewrite decide_False; [done|].
  destruct (s !! i) as [c|] eqn:Hc.
  - assert (Hin : str1 c ∈ generate_charset corpus).
    { eapply charset_covers; [by eapply list_elem_of_lookup_2|].
      by eapply list_elem_of_lookup_2. }
    destruct (chosen_found _ _ _ _ Hc Hin) as [Hk _].
    apply charset_char_position in Hk. lia.
  - apply lookup_ge_None in Hc. rewrite chosen_padding by done. lia.
Qed.

Lemma encode_corpus_no_null_witness :
  ∃ t : ndarray,
    smiles_to_onehots [lit "CC1"; lit "N"] (generate_charset [lit "CC1"; lit "N"]) 4
    = Ok t
    ∧ ∀ (j i : nat) (row : list Z), nd_row t j i = Some row → row !! 0 = Some 0%Z.
Proof.
  apply (encode_corpus_no_null [lit "CC1"; lit "N"] 4).
  - lia.
  - vm_compute. reflexivity.
Defined.

(** X7. With the vocabulary generated from a corpus, and a tensor that
    is not too big for numpy, two strings made of characters of the
    corpus and no longer than max_smiles_chars that are encoded alike
    are the same string: the encoding loses nothing. *)
Theorem encode_injective (corpus : list pystr) (s1 s2 : pystr) (m : Z) :
  (∀ c, c ∈ s1 → str1 c ∈ generate_charset corpus) →
  (∀ c, c ∈ s2 → str1 c ∈ generate_charset corpus) →
  (Z.of_nat (length s1) ≤ m)%Z → (Z.of_nat (length s2) ≤ m)%Z →
  array_too_big Float64
    [1%Z; m; Z.of_nat (length (generate_charset corpus))] = false →
  smiles_to_onehots [s1] (generate_charset corpus) m
  = smiles_to_onehots [s2] (generate_charset corpus) m →
  s1 = s2.
Proof.
  set (v := generate_charset corpus).
  intros Hin1 Hin2 Hlen1 Hlen2 Hsize Heq.
  assert (Hv : 2 ≤ length v) by apply length_generate_charset_ge.
  assert (Hok : ∃ t, smiles_to_onehots [s1] v m = Ok t).
  { eexists. apply smiles_to_onehots_Ok_intro; [done|lia|exact Hsize|].
    intros s i _ _. by apply chosen_lt. }
  destruct Hok as [t Hok1]. pose proof Hok1 as Hok2. rewrite Heq in Hok2.
  assert (Hsame : ∀ i, (Z.of_nat i < m)%Z → chosen s1 v i = chosen s2 v i).
  { intros i Hi.
    destruct (nd_row_of_Ok [s1] v m t 0 i s1 Hok1 eq_refl Hi) as [Hk1 Hr1].
    destruct (nd_row_of_Ok [s2] v m t 0 i s2 Hok2 eq_refl Hi) as [Hk2 Hr2].
    rewrite Hr1 in Hr2. injection Hr2 as Hr. by eapply one_hot_inj. }
  assert (Hchar : ∀ (s : pystr) i c, (∀ c, c ∈ s → str1 c ∈ v) → s !! i = Some c →
                    2 ≤ chosen s v i ∧ v !! chosen s v i = Some (str1 c)).
  { intros s i c Hin Hc.
    assert (Hcv : str1 c ∈ v) by (by eapply Hin, list_elem_of_lookup_2).
    destruct (chosen_found _ _ _ _ Hc Hcv) as [Hk _].
    split; [by eapply charset_char_position|done]. }
  apply list_eq. intros i.
  destruct (decide (Z.of_nat i < m)%Z) as [Hi|Hi].
  - specialize (Hsame i Hi).
    destruct (s1 !! i) as [c1|] eqn:Hc1, (s2 !! i) as [c2|] eqn:Hc2; [| | |done].
    + destruct (Hchar s1 i c1 Hin1 Hc1) as [_ Hk1].
      destruct (Hchar s2 i c2 Hin2 Hc2) as [_ Hk2].
      rewrite Hsame, Hk2 in Hk1. by injection Hk1 as ->.
    + destruct (Hchar s1 i c1 Hin1 Hc1) as [Hk1 _].
      apply lookup_ge_None in Hc2.
      rewrite Hsame, chosen_padding in Hk1 by done. lia.
    + destruct (Hchar s2 i c2 Hin2 Hc2) as [Hk2 _].
      apply lookup_ge_None in Hc1.
      rewrite <-Hsame, chosen_padding in Hk2 by done. lia.
  - rewrite (lookup_ge_None_2 s1), (lookup_ge_None_2 s2) by lia. done.
Qed.

Lemma encode_injective_witness : lit "C1" = lit "C1".
Proof.
  apply (encode_injective [lit "CC1"] (lit "C1") (lit "C1") 3).
  - intros c Hc. vm_compute in Hc. apply (charset_covers _ (lit "CC1")).
    + by left.
    + vm_compute. apply elem_of_cons in Hc as [->|Hc]; [by left|].
      apply elem_of_cons in Hc as [->|Hc]; [by do 2 right; left|].
      by apply elem_of_nil in Hc.
  - intros c Hc. vm_compute in Hc. apply (charset_covers _ (lit "CC1")).
    + by left.
    + vm_compute. apply elem_of_cons in Hc as [->|Hc]; [by left|].
      apply elem_of_cons in Hc as [->|Hc]; [by do 2 right; left|].
      by apply elem_of_nil in Hc.
  - simpl. lia.
  - simpl. lia.
  - vm_compute. reflexivity.
  - reflexivity.
Defined.

(** ** The reserved columns and repeated entries *)

(** X8. When entry 1 of the vocabulary is not a one-character string, as
    in every generated vocabulary, a row of the returned tensor is one
    at index 1 exactly at the positions at or beyond the length of the
    string: the PAD column marks the padding and nothing else. *)
Theorem encode_pad_column (strings : list pystr) (v : list pystr) (m : Z)
    (t : ndarray) (j i : nat) (s : pystr) :
  (∀ c : char, v !! 1 ≠ Some (str1 c)) →
  smiles_to_onehots strings v m = Ok t →
  strings !! j = Some s →
  (Z.of_nat i < m)%Z →
  ∃ row : list Z,
    nd_row t j i = Some row ∧ (row !! 1 = Some 1%Z ↔ length s ≤ i).
Proof.
  intros Hpad Hok Hj Hi.
  destruct (nd_row_of_Ok _ _ _ _ _ _ _ Hok Hj Hi) as [Hk Hrow].
  eexists. split; [exact Hrow|].
  assert (Hiff : chosen s v i = 1 ↔ length s ≤ i).
  { split; [|apply chosen_padding].
    intros Hone. destruct (s !! i) as [c|] eqn:Hc; [|by apply lookup_ge_None].
    exfalso. destruct (chosen_in_string s v i c Hc) as [[_ H0]|(_ & Hfound & _)].
    - lia.
    - rewrite Hone in Hfound. by apply (Hpad c). }
  rewrite <-Hiff. split.
  - intros Hone.
    assert (H1 : 1 < length v).
    { apply lookup_lt_Some in Hone. unfold one_hot in Hone.
      by rewrite length_insert, length_replicate in Hone. }
    rewrite lookup_one_hot in Hone by done.
    destruct (decide (1 = chosen s v i)); [done|discriminate].
  - intros Hone. rewrite Hone in Hk |- *.
    rewrite lookup_one_hot by done. by rewrite decide_True.
Qed.

Lemma encode_pad_column_witness :
  ∃ row : list Z,
    nd_row (mk_ndarray Float64 [1; 4; 4]
              [0;0;0;1; 0;0;0;1; 0;0;1;0; 0;1;0;0]%Z) 0 3 = Some row
    ∧ (row !! 1 = Some 1%Z ↔ length (lit "CC1") ≤ 3).
Proof.
  apply (encode_pad_column [lit "CC1"] [lit "NULL"; lit "PAD"; lit "1"; lit "C"]
           4 _ 0 3 (lit "CC1")).
  - intros c. discriminate.
  - vm_compute. reflexivity.
  - reflexivity.
  - lia.
Defined.

(** X9. When entry 0 of the vocabulary is not a one-character string, as
    in every generated vocabulary, a row of the returned tensor is one
    at index 0 exactly at the positions inside the string whose
    character does not occur in the vocabulary. *)
Theorem encode_null_column (strings : list pystr) (v : list pystr) (m : Z)
    (t : ndarray) (j i : nat) (s : pystr) :
  (∀ c : char, v !! 0 ≠ Some (str1 c)) →
  smiles_to_onehots strings v m = Ok t →
  strings !! j = Some s →
  (Z.of_nat i < m)%Z →
  ∃ row : list Z,
    nd_row t j i = Some row
    ∧ (row !! 0 = Some 1%Z ↔ ∃ c, s !! i = Some c ∧ str1 c ∉ v).
Proof.
  intros Hnull Hok Hj Hi.
  destruct (nd_row_of_Ok _ _ _ _ _ _ _ Hok Hj Hi) as [Hk Hrow].
  eexists. split; [exact Hrow|].
  assert (Hiff : chosen s v i = 0 ↔ ∃ c, s !! i = Some c ∧ str1 c ∉ v).
  { split.
    - intros Hzero. destruct (s !! i) as [c|] eqn:Hc.
      + exists c. split; [done|].
        destruct (chosen_in_string s v i c Hc) as [[Hnin _]|(_ & Hfound & _)];
          [done|].
        rewrite Hzero in Hfound. by destruct (Hnull c).
      + apply lookup_ge_None in Hc. rewrite chosen_padding in Hzero by done.
        discriminate.
    - intros (c & Hc & Hnin). by eapply chosen_absent. }
  rewrite <-Hiff. rewrite lookup_one_hot by lia. split.
  - intros Hone. destruct (decide (0 = chosen s v i)); [done|discriminate].
  - intros Hzero. by rewrite decide_True.
Qed.

Lemma encode_null_column_witness :
  ∃ row : list Z,
    nd_row (mk_ndarray Float64 [1; 2; 3] [0;0;1; 1;0;0]%Z) 0 1 = Some row
    ∧ (row !! 0 = Some 1%Z
       ↔ ∃ c, lit "CX" !! 1 = Some c ∧ str1 c ∉ [lit "NULL"; lit "PAD"; lit "C"]).
Proof.
  apply (encode_null_column [lit "CX"] [lit "NULL"; lit "PAD"; lit "C"]
           2 _ 0 1 (lit "CX")).
  - intros c. discriminate.
  - vm_compute. reflexivity.
  - reflexivity.
  - lia.
Defined.

(** X10. A vocabulary entry at index 2 or later that repeats an earlier
    entry is never used: its column is zero in every row of the
    returned tensor. *)
Theorem encode_repeated_entry_unused (strings : list pystr) (v : list pystr)
    (m : Z) (t : ndarray) (j i k k0 : nat) (s x : pystr) :
  v !! k = Some x → v !! k0 = Some x → k0 < k → 2 ≤ k →
  smiles_to_onehots strings v m = Ok t →
  strings !! j = Some s →
  (Z.of_nat i < m)%Z →
  ∃ row : list Z, nd_row t j i = Some row ∧ row !! k = Some 0%Z.
Proof.
  intros Hxk Hxk0 Hlt Hk2 Hok Hj Hi.
  destruct (nd_row_of_Ok _ _ _ _ _ _ _ Hok Hj Hi) as [Hk Hrow].
  eexists. split; [exact Hrow|].
  rewrite lookup_one_hot by (done || by eapply lookup_lt_Some).
  rewrite decide_False; [done|].
  intros ->. destruct (s !! i) as [c|] eqn:Hc.
  - destruct (chosen_in_string s v i c Hc) as [[_ H0]|(_ & Hfound & Hfirst)].
    + lia.
    + apply (Hfirst k0 Hlt). congruence.
  - apply lookup_ge_None in Hc. rewrite chosen_padding in Hk2 by done. lia.
Qed.

Lemma encode_repeated_entry_unused_witness :
  ∃ row : list Z,
    nd_row (mk_ndarray Float64 [1; 2; 4] [0;0;1;0; 0;1;0;0]%Z) 0 0 = Some row
    ∧ row !! 3 = Some 0%Z.
Proof.
  apply (encode_repeated_entry_unused [lit "C"]
           [lit "NULL"; lit "PAD"; lit "C"; lit "C"] 2 _ 0 0 3 2 (lit "C") (lit "C")).
  - reflexivity.
  - reflexivity.
  - lia.
  - lia.
  - vm_compute. reflexivity.
  - reflexivity.
  - lia.
Defined.

(** X11. Generating a vocabulary from the character entries of a
    generated vocabulary gives that vocabulary back. *)
Theorem generate_charset_of_entries (corpus : list pystr) :
  generate_charset (drop 2 (generate_charset corpus)) = generate_charset corpus.
Proof.
  rewrite !generate_charset_unfold. cbn [drop]. do 3 f_equal.
  set (u := set_of_str (join_empty corpus)).
  apply sorted_any_enumeration; [apply NoDup_elements|].
  intros c. rewrite elem_of_elements. unfold set_of_str.
  rewrite elem_of_list_to_set, elem_of_join_empty. split.
  - intros (s & Hs & Hc). apply list_elem_of_fmap in Hs as (c' & -> & Hc').
    apply list_elem_of_singleton in Hc as ->. by apply elem_of_sorted.
  - intros Hc. exists (str1 c). split; [|by apply list_elem_of_singleton].
    by apply list_elem_of_fmap_2, elem_of_sorted.
Qed.
